(** * go-local-RAG: chunking, embedding, indexing and the HTTP handlers

    A shallow embedding of the Go sources

      - [service]  : RAGService.ChunkText, GenerateEmbedding, IndexDocument
      - [handlers] : NewUploadHandler, NewQueryHandler

    together with the properties of the retrieval pipeline that the design
    document states about them. *)

From Stdlib Require Import List ZArith Lia Bool Arith Ascii.
From Stdlib Require String DecimalString.
Import ListNotations.
Import String.StringSyntax.
Delimit Scope string_scope with string.

Set Implicit Arguments.

(* ===================================================================== *)
(** ** Go strings                                                          *)
(* ===================================================================== *)

(** A Go string is a byte sequence, but [strings.Fields], [strings.TrimSpace]
    and [strings.ToLower] all walk it rune by rune (UTF-8 decoding).  We
    therefore model a string by the sequence of items that walk yields: a
    code point below [0x110000], or, for a byte that does not decode, the
    value [0x110000 + byte].  Both kinds are plain numbers here. *)
Module GoStr.

Definition rune := N.
Definition gostring := list rune.

(** String literals of the source that are pure ASCII. *)
Definition lit (s : String.string) : gostring :=
  map N_of_ascii (String.list_ascii_of_string s).
Arguments lit s%_string.

Definition SP : rune := 32%N.
Definition LF : rune := 10%N.

(** [unicode.IsSpace]: the White_Space code points. *)
Definition isSpace (r : rune) : bool :=
  ((9 <=? r) && (r <=? 13) || (r =? 32) || (r =? 133) || (r =? 160)
   || (r =? 5760) || ((8192 <=? r) && (r <=? 8202)) || (r =? 8232)
   || (r =? 8233) || (r =? 8239) || (r =? 8287) || (r =? 12288))%N.

(** Go's [s == ""]. *)
Definition isEmpty (s : gostring) : bool :=
  match s with [] => true | _ :: _ => false end.

Fixpoint eqb (a b : gostring) : bool :=
  match a, b with
  | [], [] => true
  | x :: a', y :: b' => (x =? y)%N && eqb a' b'
  | _, _ => false
  end.

(** [strings.Fields]: maximal runs of non-space items, in order.  [cur] is
    the run being scanned (the source keeps its start index instead). *)
Definition flush (cur : gostring) : list gostring :=
  match cur with [] => [] | _ :: _ => [cur] end.

Fixpoint fieldsFrom (cur : gostring) (s : gostring) : list gostring :=
  match s with
  | [] => flush cur
  | c :: s' =>
      if isSpace c then flush cur ++ fieldsFrom [] s'
      else fieldsFrom (cur ++ [c]) s'
  end.

Definition Fields (s : gostring) : list gostring := fieldsFrom [] s.

(** [strings.Join]. *)
Fixpoint Join (elems : list gostring) (sep : gostring) : gostring :=
  match elems with
  | [] => []
  | [a] => a
  | a :: rest => a ++ sep ++ Join rest sep
  end.

(** [strings.TrimSpace]. *)
Fixpoint trimLeft (s : gostring) : gostring :=
  match s with
  | [] => []
  | c :: s' => if isSpace c then trimLeft s' else s
  end.

Definition TrimSpace (s : gostring) : gostring :=
  rev (trimLeft (rev (trimLeft s))).

(** [strings.ReplaceAll s old new] for a one-item [old]. *)
Definition ReplaceAll1 (s : gostring) (old : rune) (new : gostring) : gostring :=
  flat_map (fun c => if (c =? old)%N then new else [c]) s.

(** [strings.HasSuffix]. *)
Definition HasSuffix (s suffix : gostring) : bool :=
  eqb (skipn (length s - length suffix) s) suffix
  && (length suffix <=? length s)%nat.

(** [strings.ToLower].  Only the ASCII letters matter to the callers (the
    result is compared with [".txt"], and no other code point lowers to an
    ASCII [t], [x] or [.]); other items are kept. *)
Definition toLowerRune (r : rune) : rune :=
  if ((65 <=? r) && (r <=? 90))%N then (r + 32)%N else r.

Definition ToLower (s : gostring) : gostring := map toLowerRune s.

(** [%d] of [fmt]. *)
Definition itoa (n : nat) : gostring :=
  lit (DecimalString.NilZero.string_of_uint (Nat.to_uint n)).

Definition ztoa (z : Z) : gostring :=
  lit (DecimalString.NilZero.string_of_int (Z.to_int z)).

(** No white space in [w]; only white space in [s]. *)
Definition spaceFree (w : gostring) : bool :=
  forallb (fun c => negb (isSpace c)) w.

Definition blank (s : gostring) : bool := forallb isSpace s.

(** What a word of [Fields] looks like. *)
Definition wordLike (w : gostring) : Prop :=
  w <> [] /\ spaceFree w = true.

End GoStr.
Import GoStr.

(* ===================================================================== *)
(** ** Go [int]                                                            *)
(* ===================================================================== *)

Module GoInt.

Definition minInt : Z := - 2 ^ 63.
Definition maxInt : Z := 2 ^ 63 - 1.

Definition inRange (z : Z) : Prop := (minInt <= z <= maxInt)%Z.

(** Two's-complement wrap-around of 64-bit [int] arithmetic. *)
Definition wrap (z : Z) : Z := ((z + 2 ^ 63) mod 2 ^ 64 - 2 ^ 63)%Z.

Definition add (a b : Z) : Z := wrap (a + b).
Definition sub (a b : Z) : Z := wrap (a - b).

(** [len] of a slice or of a string. *)
Definition len {A} (l : list A) : Z := Z.of_nat (length l).

End GoInt.

(** What running a piece of Go code can end in: a value, a run-time panic,
    or (for the fuel-indexed loops below) the fuel running out. *)
Inductive Outcome (A : Type) : Type :=
| Returns (a : A)
| Panics
| NoFuel.
Arguments Panics {A}.
Arguments NoFuel {A}.

(* ===================================================================== *)
(** ** package service                                                     *)
(* ===================================================================== *)

Module Service.
Import GoInt.

(** The fields of [RAGService] that are data.  [repo] and [httpClient] are
    the outside world, see [Backend] below. *)
Record RAGService : Type := NewRAGService {
  ollamaURL      : gostring;
  embeddingModel : gostring;
  llmModel       : gostring;
  chunkSize      : Z;
  chunkOverlap   : Z
}.

(** *** ChunkText *)

(** The slice expression [words[i:end]]: it panics unless
    [0 <= i <= end <= len(words)]. *)
Definition sliceWords (words : list gostring) (i e : Z) : option (list gostring) :=
  if ((0 <=? i) && (i <=? e) && (e <=? len words))%Z
  then Some (firstn (Z.to_nat (e - i)) (skipn (Z.to_nat i) words))
  else None.

(** [step := s.chunkSize - s.chunkOverlap; if step <= 0 { step = s.chunkSize }] *)
Definition chunkStep (s : RAGService) : Z :=
  let step := sub (chunkSize s) (chunkOverlap s) in
  if (step <=? 0)%Z then chunkSize s else step.

(** The [for i := 0; i < len(words); i += step] loop, entered at its
    condition with the current [i] and the chunks appended so far. *)
Fixpoint chunkLoop (fuel : nat) (size step : Z) (words : list gostring)
         (i : Z) (chunks : list gostring) : Outcome (list gostring) :=
  match fuel with
  | O => NoFuel
  | S fuel' =>
      if (i <? len words)%Z then
        let end0 := add i size in
        let end_ := if (end0 >? len words)%Z then len words else end0 in
        match sliceWords words i end_ with
        | None => Panics
        | Some ws =>
            let chunks' := chunks ++ [Join ws [SP]] in
            if (end_ =? len words)%Z then Returns chunks'
            else chunkLoop fuel' size step words (add i step) chunks'
        end
      else Returns chunks
  end.

Definition ChunkTextFuel (fuel : nat) (s : RAGService) (text : gostring)
  : Outcome (list gostring) :=
  let words := Fields text in
  if (chunkSize s <=? 0)%Z then Returns [text]
  else chunkLoop fuel (chunkSize s) (chunkStep s) words 0 [].

(** One unit of fuel per word and one more: each iteration that does not
    leave the loop moves [i] forward by at least one word. *)
Definition ChunkText (s : RAGService) (text : gostring) : Outcome (list gostring) :=
  ChunkTextFuel (S (length (Fields text))) s text.

(** The window of [words] that fragment number [k] covers. *)
Definition window (size step : Z) (words : list gostring) (k : nat) : list gostring :=
  firstn (Z.to_nat size) (skipn (k * Z.to_nat step) words).

(** Fragment number [k], as the loop builds it. *)
Definition fragment (words : list gostring) (size step : Z) (k : nat) : gostring :=
  Join (window size step words k) [SP].

(** *** The outside world: embedding service and document repository *)

Section World.

(** Vector components ([float32]), HTTP response bodies and decoded JSON
    objects ([map[string]any]) are opaque. *)
Variables float32 Body RawJSON : Type.

(** A row of table [documents]; the [id] is assigned by the database. *)
Record Row : Type := mkRow {
  Content   : gostring;
  Source    : gostring;
  Embedding : list float32
}.

(** Calls that leave the process, in the order they are made, each with
    the arguments the code holds when it makes the call.  For the two
    POSTs these are the URL and the [model] and [prompt] entries of the
    request map: the body on the wire is [json.Marshal] of that map, which
    writes a byte that is not valid UTF-8 as U+FFFD, so [prompt] is the
    text before that encoding, not the bytes sent. *)
Inductive Event : Type :=
| EvPostEmbeddings (url model prompt : gostring)
| EvInsert (content source : gostring) (embedding : list float32)
| EvSearch (queryEmbedding : list float32) (topK : Z)
| EvPostGenerate (url model prompt : gostring).

Record World : Type := mkWorld {
  rows : list Row;
  log  : list Event
}.

Definition logged (w : World) (e : Event) : World :=
  mkWorld (rows w) (log w ++ [e]).

Record HttpResponse : Type := mkResp {
  StatusCode : Z;
  RespBody   : Body
}.

(** What [rows.Next]/[rows.Scan] deliver for a [conn.Query]. *)
Inductive QueryRows : Type :=
| QueryFailed (cause : gostring)
| ScanFailed (cause : gostring)
| RowsOk (docs : list Row).

(** One [dec.Decode(&chunk)] of the generation stream. *)
Inductive Increment : Type :=
| Chunk (Response : gostring) (Done : bool)
| DecodeError (cause : gostring).

(** The behaviour of what the service talks to.  Every oracle sees the
    world at the moment of the call, so that it may answer differently
    from one call to the next. *)
Record Backend : Type := mkBackend {
  (** [httpClient.Post(url+"/api/embeddings", ...)]: an error or a response *)
  postEmbeddings : World -> gostring -> gostring -> gostring -> gostring + HttpResponse;
  (** [dec.Decode(&raw)], whose error is discarded *)
  decodeRaw : Body -> RawJSON;
  (** [dec.Decode(&result)] followed by [result.Embedding] *)
  decodeEmbedding : Body -> gostring + list float32;
  (** [%v] of the decoded object *)
  showRaw : RawJSON -> gostring;
  (** [conn.Exec] of the INSERT statement: [Some cause] when it fails *)
  execInsert : World -> Row -> option gostring;
  (** [conn.Query] of the SELECT ... ORDER BY ... LIMIT statement *)
  querySimilar : World -> list float32 -> Z -> QueryRows;
  (** [httpClient.Post(url+"/api/generate", ...)]: an error, or the
      increments the body decodes to, up to its end *)
  postGenerate : World -> gostring -> gostring -> gostring -> gostring + list Increment
}.

Variable B : Backend.

(** *** Errors *)

Inductive EmbedError : Type :=
| ErrCallingEmbeddings (cause : gostring)
| ErrEmbeddingsStatus (status : Z) (raw : RawJSON)
| ErrParsingEmbeddings (cause : gostring)
| ErrEmptyVector.

Inductive StoreError : Type :=
| ErrInsertingChunk (cause : gostring)
| ErrVectorSearch (cause : gostring)
| ErrScan (cause : gostring).

Inductive IndexError : Type :=
| ErrEmbeddingChunk (i : nat) (e : EmbedError)
| ErrStoringChunk (i : nat) (e : StoreError).

Inductive SearchError : Type :=
| ErrEmbeddingQuery (e : EmbedError)
| ErrRepo (e : StoreError).

(** [err.Error()] *)
Definition embedErrorText (e : EmbedError) : gostring :=
  match e with
  | ErrCallingEmbeddings c => lit "error calling ollama embeddings: " ++ c
  | ErrEmbeddingsStatus st raw =>
      lit "ollama embeddings status " ++ ztoa st ++ lit ": " ++ showRaw B raw
  | ErrParsingEmbeddings c => lit "error parsing embeddings JSON: " ++ c
  | ErrEmptyVector => lit "ollama embeddings returned empty vector"
  end.

Definition storeErrorText (e : StoreError) : gostring :=
  match e with
  | ErrInsertingChunk c => lit "error inserting chunk: " ++ c
  | ErrVectorSearch c => lit "error performing vector search: " ++ c
  | ErrScan c => c
  end.

Definition indexErrorText (e : IndexError) : gostring :=
  match e with
  | ErrEmbeddingChunk i e' =>
      lit "embedding chunk " ++ itoa i ++ lit ": " ++ embedErrorText e'
  | ErrStoringChunk i e' =>
      lit "storing chunk " ++ itoa i ++ lit ": " ++ storeErrorText e'
  end.

Definition searchErrorText (e : SearchError) : gostring :=
  match e with
  | ErrEmbeddingQuery e' => lit "embedding query: " ++ embedErrorText e'
  | ErrRepo e' => storeErrorText e'
  end.

(** The chunk index that an [IndexDocument] error names. *)
Definition errorIndex (e : IndexError) : nat :=
  match e with
  | ErrEmbeddingChunk i _ => i
  | ErrStoringChunk i _ => i
  end.

(** *** GenerateEmbedding *)

(** [json.Marshal] of a map of two strings cannot fail, so its error
    branch is not a case of the model.  The event logged holds [text] as
    it is put in the request map, see [Event]. *)
Definition GenerateEmbedding (s : RAGService) (text : gostring) (w : World)
  : World * (EmbedError + list float32) :=
  let w' := logged w (EvPostEmbeddings (ollamaURL s ++ lit "/api/embeddings")
                                       (embeddingModel s) text) in
  match postEmbeddings B w (ollamaURL s ++ lit "/api/embeddings")
                       (embeddingModel s) text with
  | inl err => (w', inl (ErrCallingEmbeddings err))
  | inr resp =>
      if negb (StatusCode resp =? 200)%Z then
        (w', inl (ErrEmbeddingsStatus (StatusCode resp)
                                      (decodeRaw B (RespBody resp))))
      else
        match decodeEmbedding B (RespBody resp) with
        | inl err => (w', inl (ErrParsingEmbeddings err))
        | inr embedding =>
            if (len embedding =? 0)%Z then (w', inl ErrEmptyVector)
            else (w', inr embedding)
        end
  end.

(** *** PostgresRepository.InsertChunk and SearchSimilar *)

Definition InsertChunk (content source : gostring) (embedding : list float32)
           (w : World) : World * option StoreError :=
  let w' := logged w (EvInsert content source embedding) in
  match execInsert B w (mkRow content source embedding) with
  | Some err => (w', Some (ErrInsertingChunk err))
  | None => (mkWorld (rows w' ++ [mkRow content source embedding]) (log w'), None)
  end.

Definition SearchSimilar (queryEmbedding : list float32) (topK : Z) (w : World)
  : World * (StoreError + list Row) :=
  let w' := logged w (EvSearch queryEmbedding topK) in
  match querySimilar B w queryEmbedding topK with
  | QueryFailed c => (w', inl (ErrVectorSearch c))
  | ScanFailed c => (w', inl (ErrScan c))
  | RowsOk docs => (w', inr docs)
  end.

(** *** IndexDocument *)

(** The body of [for i, ch := range chunks], from index [i] on. *)
Fixpoint indexLoop (s : RAGService) (source : gostring) (i : nat)
         (chunks : list gostring) (w : World) : World * option IndexError :=
  match chunks with
  | [] => (w, None)
  | ch :: rest =>
      match GenerateEmbedding s ch w with
      | (w1, inl err) => (w1, Some (ErrEmbeddingChunk i err))
      | (w1, inr emb) =>
          match InsertChunk ch source emb w1 with
          | (w2, Some err) => (w2, Some (ErrStoringChunk i err))
          | (w2, None) => indexLoop s source (S i) rest w2
          end
      end
  end.

Definition IndexDocument (s : RAGService) (content source : gostring) (w : World)
  : World * Outcome (option IndexError) :=
  match ChunkText s content with
  | Returns chunks =>
      let (w', err) := indexLoop s source 0 chunks w in (w', Returns err)
  | Panics => (w, Panics)
  | NoFuel => (w, NoFuel)
  end.

(** *** SearchSimilarContents *)

Definition SearchSimilarContents (s : RAGService) (question : gostring) (topK : Z)
           (w : World) : World * (SearchError + list gostring) :=
  match GenerateEmbedding s question w with
  | (w1, inl err) => (w1, inl (ErrEmbeddingQuery err))
  | (w1, inr emb) =>
      match SearchSimilar emb topK w1 with
      | (w2, inl err) => (w2, inl (ErrRepo err))
      | (w2, inr docs) => (w2, inr (map Content docs))
      end
  end.

(** *** Vocabulary for statements about IndexDocument *)

(** Fragment [ch] is embedded and then inserted, both with success. *)
Definition chunkOk (s : RAGService) (source ch : gostring) (w w' : World) : Prop :=
  exists emb w1,
    GenerateEmbedding s ch w = (w1, inr emb) /\
    InsertChunk ch source emb w1 = (w', None) /\
    rows w' = rows w ++ [mkRow ch source emb].

(** Fragments are processed one after the other, all with success. *)
Inductive chunksOk (s : RAGService) (source : gostring)
  : World -> list gostring -> World -> Prop :=
| chunksOk_nil : forall w, chunksOk s source w [] w
| chunksOk_cons : forall w w1 w2 ch rest,
    chunkOk s source ch w w1 ->
    chunksOk s source w1 rest w2 ->
    chunksOk s source w (ch :: rest) w2.

(** Processing fragment [ch], number [i], fails: either its embedding,
    or, after the embedding succeeded, its insertion.  No row is added. *)
Definition chunkFails (s : RAGService) (source ch : gostring) (i : nat)
           (w w' : World) (err : IndexError) : Prop :=
  (exists e, GenerateEmbedding s ch w = (w', inl e) /\ err = ErrEmbeddingChunk i e)
  \/
  (exists emb w1 e, GenerateEmbedding s ch w = (w1, inr emb) /\
                    InsertChunk ch source emb w1 = (w', Some e) /\
                    err = ErrStoringChunk i e).

End World.

End Service.

(* ===================================================================== *)
(** ** package handlers                                                    *)
(* ===================================================================== *)

Module Handlers.
Import Service.

(** What a handler leaves in the [http.ResponseWriter] when it does not
    stream: a status code and a body.  [http.Error] appends a newline. *)
Record Response : Type := mkResponse {
  status : Z;
  body   : gostring
}.

Definition httpError (msg : gostring) (code : Z) : Response :=
  mkResponse code (msg ++ [LF]).

Definition MethodGet : gostring := lit "GET".
Definition MethodPost : gostring := lit "POST".

Definition StatusOK : Z := 200.
Definition StatusBadRequest : Z := 400.
Definition StatusMethodNotAllowed : Z := 405.
Definition StatusInternalServerError : Z := 500.
Definition StatusBadGateway : Z := 502.

(** *** NewUploadHandler *)

(** The [file] part of the multipart form: its name and what
    [io.ReadAll] gives, an error or the bytes. *)
Record FilePart : Type := mkFile {
  Filename : gostring;
  ReadAll  : gostring + gostring
}.

(** The parsed form: [r.FormValue("text")] and [r.FormFile("file")]
    ([None] when the latter returns an error). *)
Record Form : Type := mkForm {
  formText : gostring;
  formFile : option FilePart
}.

(** A request as the upload handler sees it; [upForm] is the result of
    [r.ParseMultipartForm(10 << 20)]. *)
Record UploadRequest : Type := mkUpload {
  upMethod : gostring;
  upForm   : gostring + Form
}.

Definition user_text : gostring := lit "user_text".

Definition msgOnlyTxt : gostring := lit "solo se aceptan archivos .txt".

Definition msgNothing : gostring :=
  lit "no se proporcion" ++ [243%N] ++ lit " texto ni archivo".

Definition okJSON : gostring :=
  lit "{" ++ [34%N] ++ lit "ok" ++ [34%N] ++ lit ":true}".

Section Upload.

Variables float32 RawJSON : Type.
Variable showErr : IndexError RawJSON -> gostring.

Definition IndexFn : Type :=
  gostring -> gostring -> World float32 ->
  World float32 * Outcome (option (IndexError RawJSON)).

(** Lines 57-63 of the handler: the response to what [indexFn] returned. *)
Definition indexResponse (r : World float32 * Outcome (option (IndexError RawJSON)))
  : World float32 * Outcome Response :=
  match r with
  | (w', Returns (Some err)) =>
      (w', Returns (httpError (lit "error indexando documento: " ++ showErr err)
                              StatusInternalServerError))
  | (w', Returns None) => (w', Returns (mkResponse StatusOK okJSON))
  | (w', Panics) => (w', Panics)
  | (w', NoFuel) => (w', NoFuel)
  end.

(** Lines 46-64 of the handler, with [content] and [source] as the file
    block left them. *)
Definition uploadTail (indexFn : IndexFn) (text content source : gostring)
           (w : World float32) : World float32 * Outcome Response :=
  let content' := if isEmpty content then text else content in
  let source' := if isEmpty content then user_text else source in
  if isEmpty (TrimSpace content') then
    (w, Returns (httpError msgNothing StatusBadRequest))
  else
    indexResponse (indexFn content' source' w).

Definition UploadHandler (indexFn : IndexFn) (r : UploadRequest)
           (w : World float32) : World float32 * Outcome Response :=
  if negb (eqb (upMethod r) MethodPost) then
    (w, Returns (mkResponse StatusMethodNotAllowed []))
  else
    match upForm r with
    | inl err =>
        (w, Returns (httpError (lit "error parsing form: " ++ err) StatusBadRequest))
    | inr form =>
        let text := formText form in
        match formFile form with
        | Some file =>
            if negb (HasSuffix (ToLower (Filename file)) (lit ".txt")) then
              (w, Returns (httpError msgOnlyTxt StatusBadRequest))
            else
              match ReadAll file with
              | inl err =>
                  (w, Returns (httpError (lit "error leyendo archivo: " ++ err)
                                         StatusBadRequest))
              | inr b => uploadTail indexFn text b (Filename file) w
              end
        | None => uploadTail indexFn text [] [] w
        end
    end.

(** The content and the source that a parsed form submits for indexing,
    when the handler gets as far as choosing them. *)
Definition submitted (form : Form) : gostring * gostring :=
  match formFile form with
  | Some (mkFile name (inr b)) =>
      if isEmpty b then (formText form, user_text) else (b, name)
  | _ => (formText form, user_text)
  end.

End Upload.

(** *** NewQueryHandler *)

(** A request as the query handler sees it: the method, the URL query
    parameters in order, and whether the response writer is an
    [http.Flusher]. *)
Record QueryRequest : Type := mkQuery {
  qMethod  : gostring;
  qParams  : list (gostring * gostring);
  qFlusher : bool
}.

(** [r.URL.Query().Get(key)]: the first value of [key], or [""]. *)
Fixpoint Get (params : list (gostring * gostring)) (key : gostring) : gostring :=
  match params with
  | [] => []
  | (k, v) :: rest => if eqb k key then v else Get rest key
  end.

(** Server-Sent Events written to the response: a plain [data:] event or
    one with an [event:] line before it.  The handler calls
    [flusher.Flush()] after each one. *)
Inductive SSEvent : Type :=
| Data (payload : gostring)
| Named (name payload : gostring).

Definition render (e : SSEvent) : gostring :=
  match e with
  | Data p => lit "data: " ++ p ++ [LF; LF]
  | Named n p => lit "event: " ++ n ++ [LF] ++ lit "data: " ++ p ++ [LF; LF]
  end.

Definition doneEvent : SSEvent := Named (lit "done") (lit "done").

Definition errorEvent (cause : gostring) : SSEvent :=
  Named (lit "error") (ReplaceAll1 cause LF [SP]).

(** [strings.ReplaceAll(chunk.Response, "\n", "\\n")] *)
Definition escapeNewlines (s : gostring) : gostring :=
  ReplaceAll1 s LF (lit "\n").

Inductive QueryResponse : Type :=
| Plain (r : Response)
| Stream (events : list SSEvent).

(** [contextStr]: the header and one numbered entry per document. *)
Fixpoint contextEntries (i : nat) (docs : list gostring) : gostring :=
  match docs with
  | [] => []
  | content :: rest =>
      (lit "[" ++ itoa (i + 1) ++ lit "] " ++ content ++ [LF; LF])
      ++ contextEntries (S i) rest
  end.

Definition contextStr (docs : list gostring) : gostring :=
  lit "Relevant context:" ++ [LF; LF] ++ contextEntries 0 docs.

Definition instructions : gostring :=
  lit "Instrucciones: Responde la pregunta bas" ++ [225%N] ++ lit "ndote "
  ++ [218%N] ++ lit "NICAMENTE en el contexto proporcionado. Si la informaci"
  ++ [243%N] ++ lit "n no est" ++ [225%N]
  ++ lit " en el contexto, indica que no tienes suficiente informaci"
  ++ [243%N] ++ lit "n.".

Definition buildPrompt (docs : list gostring) (question : gostring) : gostring :=
  contextStr docs ++ [LF] ++ lit "Pregunta: " ++ question ++ [LF]
  ++ instructions ++ [LF] ++ lit "Respuesta:".

Section Query.

Variables float32 Body RawJSON : Type.
Variable B : Backend float32 Body RawJSON.

(** The decoding loop over the generation response.  The end of the
    list is [io.EOF]. *)
Fixpoint streamLoop (incs : list Increment) : list SSEvent :=
  match incs with
  | [] => []
  | DecodeError cause :: _ => [errorEvent cause]
  | Chunk response done :: rest =>
      (if isEmpty response then [] else [Data (escapeNewlines response)])
      ++ (if done then [doneEvent] else streamLoop rest)
  end.

Definition SearchFn : Type :=
  gostring -> Z -> World float32 ->
  World float32 * (SearchError RawJSON + list gostring).

Definition QueryHandler (searchFn : SearchFn) (llmModel ollamaURL : gostring)
           (r : QueryRequest) (w : World float32)
  : World float32 * QueryResponse :=
  if negb (eqb (qMethod r) MethodGet) then
    (w, Plain (mkResponse StatusMethodNotAllowed []))
  else
    let question := TrimSpace (Get (qParams r) (lit "q")) in
    if isEmpty question then
      (w, Plain (httpError (lit "missing parameter 'q'") StatusBadRequest))
    else
      let topK := 50%Z in
      match searchFn question topK w with
      | (w1, inl err) =>
          (w1, Plain (httpError (lit "error looking for context: "
                                 ++ searchErrorText B err)
                                StatusInternalServerError))
      | (w1, inr docs) =>
          let prompt := buildPrompt docs question in
          if negb (qFlusher r) then
            (w1, Plain (httpError (lit "streaming not supported")
                                  StatusInternalServerError))
          else
            let w2 := logged w1 (EvPostGenerate float32
                                   (ollamaURL ++ lit "/api/generate")
                                   llmModel prompt) in
            match postGenerate B w1 (ollamaURL ++ lit "/api/generate")
                               llmModel prompt with
            | inl err =>
                (w2, Plain (httpError (lit "error calling ollama: " ++ err)
                                      StatusBadGateway))
            | inr incs => (w2, Stream (streamLoop incs))
            end
      end.

(** The handler as [main] wires it. *)
Definition QueryEndpoint (s : RAGService) : QueryRequest -> World float32 ->
                                            World float32 * QueryResponse :=
  QueryHandler (SearchSimilarContents B s) (llmModel s) (ollamaURL s).

(** The upload handler as [main] wires it. *)
Definition UploadEndpoint (s : RAGService) : UploadRequest -> World float32 ->
                                             World float32 * Outcome Response :=
  UploadHandler (indexErrorText B) (IndexDocument B s).

End Query.

(** *** Vocabulary for statements about the stream *)

(** The increments the loop decodes before it stops: up to and including
    the first one with the completion flag, or up to the first decoding
    error (excluded), or all of them. *)
Fixpoint decoded (incs : list Increment) : list (gostring * bool) :=
  match incs with
  | [] => []
  | DecodeError _ :: _ => []
  | Chunk response done :: rest =>
      (response, done) :: (if done then [] else decoded rest)
  end.

(** The text generated by the increments that were decoded. *)
Definition generatedText (incs : list Increment) : gostring :=
  concat (map fst (decoded incs)).

(** The payloads of the plain [data:] events, i.e. the forwarded tokens. *)
Fixpoint tokens (events : list SSEvent) : list gostring :=
  match events with
  | [] => []
  | Data p :: rest => p :: tokens rest
  | Named _ _ :: rest => tokens rest
  end.

(** A terminal event: [done] or [error]. *)
Definition isTerminal (e : SSEvent) : bool :=
  match e with
  | Data _ => false
  | Named n _ => eqb n (lit "done") || eqb n (lit "error")
  end.

Definition endsInTerminal (events : list SSEvent) : bool :=
  match rev events with
  | [] => false
  | e :: _ => isTerminal e
  end.

(** How the decoding of the generation response ends. *)
Inductive StreamEnd : Type :=
| EndsDone      (* an increment with the completion flag *)
| EndsError     (* a decoding error other than io.EOF *)
| EndsEOF.      (* the body ends first *)

Fixpoint streamEnd (incs : list Increment) : StreamEnd :=
  match incs with
  | [] => EndsEOF
  | DecodeError _ :: _ => EndsError
  | Chunk _ done :: rest => if done then EndsDone else streamEnd rest
  end.

End Handlers.

(* ===================================================================== *)
(** ** Test doubles and sample inputs                                      *)
(* ===================================================================== *)

Module Samples.
Import Service Handlers.

(** Vector components are integers here, a response body is either text
    that does not decode or the vector it decodes to, and a decoded JSON
    object is its text. *)
Definition SBody : Type := (gostring + list Z)%type.

(** A backend whose embedding call fails when [failAt] calls have been
    logged before it, whose database keeps rows in insertion order, and
    whose generation stream is [gen]. *)
Definition backend (failAt : option nat) (gen : list Increment)
  : Backend Z SBody gostring :=
  mkBackend
    (fun w _ _ prompt =>
       match failAt with
       | Some n => if Nat.eqb (length (log w)) n
                   then inl (lit "connection refused")
                   else inr (mkResp 200 (inr [Z.of_nat (length prompt)]))
       | None => inr (mkResp 200 (inr [Z.of_nat (length prompt)]))
       end)
    (fun b => match b with inl t => t | inr _ => [] end)
    (fun b => match b with inl _ => inl (lit "invalid character") | inr v => inr v end)
    (fun raw => raw)
    (fun _ _ => None)
    (fun w _ k => RowsOk (firstn (Z.to_nat k) (rows w)))
    (fun _ _ _ _ => inr gen).

Definition svc : RAGService :=
  NewRAGService (lit "http://localhost:11434") (lit "nomic-embed-text")
                (lit "llama3.2") 4 2.

(** Size 2 and overlap 5: the overlap is not below the size. *)
Definition svcCapped : RAGService :=
  NewRAGService (lit "http://localhost:11434") (lit "nomic-embed-text")
                (lit "llama3.2") 2 5.

Definition skyText : gostring := lit "the sky is blue the grass is green".

Definition emptyWorld : World Z := mkWorld [] [].

Definition doc1 : gostring := lit "doc1".

Definition skyChunks : list gostring :=
  [lit "the sky is blue"; lit "is blue the grass"; lit "the grass is green"].

(** Three increments and the completion signal. *)
Definition goStream : list Increment :=
  [Chunk (lit "Go") false; Chunk (lit " was") false;
   Chunk (lit " created") false; Chunk [] true].

(** An increment whose text holds a line feed. *)
Definition twoLines : list Increment :=
  [Chunk (lit "a" ++ [LF] ++ lit "b") true].

(** A body that ends with no completion-flagged increment. *)
Definition cutStream : list Increment := [Chunk (lit "Go") false].

(** [GET /api/query?q=hello&k=3] *)
Definition queryK3 : QueryRequest :=
  mkQuery MethodGet [(lit "q", lit "hello"); (lit "k", lit "3")] true.

(** [POST /api/upload] with a file [a.txt] that holds one space, and the
    text [hello]. *)
Definition blankFileUpload : UploadRequest :=
  mkUpload MethodPost
           (inr (mkForm (lit "hello") (Some (mkFile (lit "a.txt") (inr [SP]))))).

(** [POST /api/upload] with a file [notes.txt] and the text [hello]. *)
Definition fileAndTextUpload : UploadRequest :=
  mkUpload MethodPost
           (inr (mkForm (lit "hello")
                        (Some (mkFile (lit "notes.txt") (inr (lit "from the file")))))).

End Samples.

(* ===================================================================== *)
(** ** package repo: Init                                                  *)
(* ===================================================================== *)

Module Repo.

Definition TAB : rune := 9%N.

Definition createExtension : gostring :=
  lit "CREATE EXTENSION IF NOT EXISTS vector".

Definition createTable : gostring :=
  lit "CREATE TABLE IF NOT EXISTS documents (" ++ [LF; TAB; TAB; TAB]
  ++ lit "id SERIAL PRIMARY KEY," ++ [LF; TAB; TAB; TAB]
  ++ lit "content TEXT NOT NULL," ++ [LF; TAB; TAB; TAB]
  ++ lit "source TEXT NOT NULL," ++ [LF; TAB; TAB; TAB]
  ++ lit "embedding vector(768)" ++ [LF; TAB; TAB]
  ++ lit ")".

Definition createIndex : gostring :=
  lit "CREATE INDEX IF NOT EXISTS documents_embedding_idx ON documents USING ivfflat (embedding vector_cosine_ops) WITH (lists = 100)".

Definition initQueries : list gostring :=
  [createExtension; createTable; createIndex].

(** [for _, q := range queries]: [exec] is [conn.Exec], which sees the
    statements sent before and answers [Some cause] when it fails; [sent]
    are the statements sent so far. *)
Fixpoint execAll (exec : list gostring -> gostring -> option gostring)
         (sent queries : list gostring) : list gostring * option gostring :=
  match queries with
  | [] => (sent, None)
  | q :: rest =>
      match exec sent q with
      | Some err => (sent ++ [q], Some (lit "error executing init query: " ++ err))
      | None => execAll exec (sent ++ [q]) rest
      end
  end.

Definition Init (exec : list gostring -> gostring -> option gostring)
  : list gostring * option gostring :=
  execAll exec [] initQueries.

End Repo.

(* ===================================================================== *)
(** ** Vocabulary for traces and events                                    *)
(* ===================================================================== *)

Module Traces.
Import Service Handlers.

Section Events.

Variable float32 : Type.

(** The call that [GenerateEmbedding] logs for [text]: the request whose
    map holds [text] as its prompt. *)
Definition embedEvent (s : RAGService) (text : gostring) : Event float32 :=
  EvPostEmbeddings float32 (ollamaURL s ++ lit "/api/embeddings")
                   (embeddingModel s) text.


(** The two calls of a fragment that is embedded to [snd p] and stored. *)
Definition okEvents (s : RAGService) (source : gostring)
           (p : gostring * list float32) : list (Event float32) :=
  [embedEvent s (fst p); EvInsert (fst p) source (snd p)].

(** The row of a fragment that is embedded to [snd p] and stored. *)
Definition stored (source : gostring) (p : gostring * list float32) : Row float32 :=
  mkRow (fst p) source (snd p).

End Events.

(** The text after [data: ] in an event. *)
Definition payload (e : SSEvent) : gostring :=
  match e with
  | Data p => p
  | Named _ p => p
  end.

Definition hasLF (s : gostring) : bool := existsb (N.eqb LF) s.

(** The terminal events the loop sends, by how the stream ends; [cause]
    is the text of the first decoding error, if there is one. *)
Fixpoint firstError (incs : list Increment) : gostring :=
  match incs with
  | [] => []
  | DecodeError cause :: _ => cause
  | Chunk _ done :: rest => if done then [] else firstError rest
  end.

Definition terminalEvents (incs : list Increment) : list SSEvent :=
  match streamEnd incs with
  | EndsDone => [doneEvent]
  | EndsError => [errorEvent (firstError incs)]
  | EndsEOF => []
  end.

(** A file name the upload handler accepts: it ends in a dot and the
    letters t, x, t, each in either case. *)
Definition endsInTxt (name : gostring) : Prop :=
  exists (pre : gostring) (b c d : rune),
    name = pre ++ [46%N; b; c; d] /\
    (b = 116%N \/ b = 84%N) /\ (c = 120%N \/ c = 88%N) /\ (d = 116%N \/ d = 84%N).

(** What [dec.Decode(&raw)] needs to see first for [raw] to become an
    object: after JSON white space, an opening brace. *)
Definition jsonSpace (r : rune) : bool :=
  ((r =? 32) || (r =? 9) || (r =? 10) || (r =? 13))%N.

Fixpoint opensObject (body : gostring) : bool :=
  match body with
  | [] => false
  | c :: rest => if jsonSpace c then opensObject rest else (c =? 123)%N
  end.

(** An embedding service that answers every call with [status] and the
    body [body], a text.  Decoding a body that does not open an object
    into a [map[string]any] fails and leaves the map [nil] ([None]), which
    [%v] prints as [map[]]; a body that opens an object stands for the
    object it decodes to.  A text body never decodes to a vector. *)
Definition textBackend (status : Z) (body : gostring)
  : Backend Z gostring (option gostring) :=
  mkBackend
    (fun _ _ _ _ => inr (mkResp status body))
    (fun b => if opensObject b then Some b else None)
    (fun _ => inl (lit "json: cannot unmarshal"))
    (fun raw => match raw with None => lit "map[]" | Some t => t end)
    (fun _ _ => None)
    (fun _ _ _ => RowsOk [])
    (fun _ _ _ _ => inr []).

(** More sample data. *)
Definition svcNoOverlap : RAGService :=
  NewRAGService (lit "http://localhost:11434") (lit "nomic-embed-text")
                (lit "llama3.2") 3 0.

Definition svcWhole : RAGService :=
  NewRAGService (lit "http://localhost:11434") (lit "nomic-embed-text")
                (lit "llama3.2") 0 0.

Definition textUpload : UploadRequest :=
  mkUpload MethodPost (inr (mkForm (lit "the sky is blue") None)).

Definition skyUpload : UploadRequest :=
  mkUpload MethodPost (inr (mkForm Samples.skyText None)).

End Traces.

(* ===================================================================== *)
(** * Properties                                                           *)
(* ===================================================================== *)

(** ** Go strings *)

Module GoStrFacts.

Lemma spaceFree_app (a b : gostring) :
  spaceFree (a ++ b) = spaceFree a && spaceFree b.
Proof. apply forallb_app. Qed.

Lemma flush_wordLike (cur : gostring) :
  spaceFree cur = true -> Forall wordLike (flush cur).
Proof.
  destruct cur as [|c cur]; simpl; intros H; constructor; [|constructor].
  split; [discriminate | exact H].
Qed.

Lemma fieldsFrom_wordLike (s cur : gostring) :
  spaceFree cur = true -> Forall wordLike (fieldsFrom cur s).
Proof.
  revert cur; induction s as [|c s IH]; intros cur Hcur; simpl.
  - now apply flush_wordLike.
  - destruct (isSpace c) eqn:Hc.
    + apply Forall_app; split; [now apply flush_wordLike | now apply IH].
    + apply IH. rewrite spaceFree_app, Hcur. simpl. now rewrite Hc.
Qed.

(** The words of [Fields] are non-empty and contain no white space. *)
Lemma Fields_wordLike (s : gostring) : Forall wordLike (Fields s).
Proof. now apply fieldsFrom_wordLike. Qed.

Lemma fieldsFrom_word (w s cur : gostring) :
  spaceFree w = true -> fieldsFrom cur (w ++ s) = fieldsFrom (cur ++ w) s.
Proof.
  revert cur; induction w as [|c w IH]; intros cur Hw; simpl.
  - now rewrite app_nil_r.
  - simpl in Hw. apply andb_prop in Hw as [Hc Hw].
    apply negb_true_iff in Hc. rewrite Hc, IH by exact Hw.
    now rewrite <- app_assoc.
Qed.

Lemma isSpace_SP : isSpace SP = true.
Proof. reflexivity. Qed.

(** Splitting what [Join] glued with single spaces gives the words back. *)
Lemma Fields_Join (ws : list gostring) :
  Forall wordLike ws -> Fields (Join ws [SP]) = ws.
Proof.
  unfold Fields. induction 1 as [|w ws [Hne Hsf] Hws IH]; [reflexivity|].
  destruct ws as [|w' ws].
  - simpl. rewrite <- (app_nil_r w) at 1. rewrite fieldsFrom_word by exact Hsf.
    simpl. destruct w; [now elim Hne | reflexivity].
  - change (Join (w :: w' :: ws) [SP]) with (w ++ SP :: Join (w' :: ws) [SP]).
    rewrite fieldsFrom_word by exact Hsf.
    change (fieldsFrom ([] ++ w) (SP :: Join (w' :: ws) [SP]))
      with (flush ([] ++ w) ++ fieldsFrom [] (Join (w' :: ws) [SP])).
    rewrite IH. simpl. destruct w; [now elim Hne | reflexivity].
Qed.

Lemma fieldsFrom_count (s cur : gostring) :
  2 * length (fieldsFrom cur s) <= length s + 1 + (if isEmpty cur then 0 else 1).
Proof.
  revert cur; induction s as [|c s IH]; intros cur; simpl.
  - destruct cur; simpl; lia.
  - destruct (isSpace c).
    + rewrite length_app. specialize (IH []). simpl in IH.
      destruct cur; simpl; lia.
    + specialize (IH (cur ++ [c])).
      destruct cur; simpl in *; lia.
Qed.

(** Words are separated by at least one item each. *)
Lemma Fields_count (s : gostring) : 2 * length (Fields s) <= length s + 1.
Proof. generalize (fieldsFrom_count s []). simpl. unfold Fields. lia. Qed.

Lemma fieldsFrom_nil (s cur : gostring) :
  fieldsFrom cur s = [] <-> cur = [] /\ blank s = true.
Proof.
  revert cur; induction s as [|c s IH]; intros cur; simpl.
  - destruct cur; simpl; split; intros H; easy.
  - destruct (isSpace c) eqn:Hc; simpl.
    + split.
      * intros H. apply app_eq_nil in H as [H1 H2].
        apply IH in H2 as [_ H2]. destruct cur; [easy | discriminate].
      * intros [-> H]. simpl. apply IH. easy.
    + rewrite IH. split; [intros [H _] | intros [_ H]]; [|discriminate].
      now destruct cur.
Qed.

Lemma Fields_nil (s : gostring) : Fields s = [] <-> blank s = true.
Proof. unfold Fields. rewrite fieldsFrom_nil. tauto. Qed.

Lemma trimLeft_nil (s : gostring) : trimLeft s = [] <-> blank s = true.
Proof.
  induction s as [|c s IH]; simpl; [tauto|].
  destruct (isSpace c); simpl; [exact IH | split; discriminate].
Qed.

Lemma trimLeft_blank (s : gostring) : blank s = true -> trimLeft s = [].
Proof. apply trimLeft_nil. Qed.

Lemma blank_rev (s : gostring) : blank (rev s) = blank s.
Proof.
  unfold blank. induction s as [|c s IH]; [reflexivity|].
  simpl. rewrite forallb_app, IH. simpl. rewrite andb_true_r. apply andb_comm.
Qed.

Lemma trimLeft_suffix (s : gostring) :
  exists p, s = p ++ trimLeft s /\ blank p = true.
Proof.
  induction s as [|c s [p [E Hp]]]; [now exists []|]. simpl.
  destruct (isSpace c) eqn:Hc.
  - exists (c :: p). simpl. rewrite Hc, Hp. now rewrite <- E.
  - now exists [].
Qed.

(** [TrimSpace] leaves nothing exactly when every item is white space. *)
Lemma TrimSpace_nil (s : gostring) : TrimSpace s = [] <-> blank s = true.
Proof.
  unfold TrimSpace. split.
  - intros H. apply (f_equal (@rev rune)) in H. rewrite rev_involutive in H.
    simpl in H. apply trimLeft_nil in H. rewrite blank_rev in H.
    destruct (trimLeft_suffix s) as [p [E Hp]].
    rewrite E. unfold blank in *. now rewrite forallb_app, Hp, H.
  - intros H. now rewrite (trimLeft_blank _ H).
Qed.

Lemma isEmpty_true (s : gostring) : isEmpty s = true <-> s = [].
Proof. destruct s; simpl; split; easy. Qed.

Lemma isEmpty_false (s : gostring) : isEmpty s = false <-> s <> [].
Proof. destruct s; simpl; split; easy. Qed.

Lemma ReplaceAll1_app (a b : gostring) (old : rune) (new : gostring) :
  ReplaceAll1 (a ++ b) old new = ReplaceAll1 a old new ++ ReplaceAll1 b old new.
Proof. apply flat_map_app. Qed.

Lemma ReplaceAll1_concat (l : list gostring) (old : rune) (new : gostring) :
  ReplaceAll1 (concat l) old new = concat (map (fun s => ReplaceAll1 s old new) l).
Proof.
  induction l as [|a l IH]; [reflexivity|].
  simpl. now rewrite ReplaceAll1_app, IH.
Qed.

(** Replacing an item that does not occur changes nothing. *)
Lemma ReplaceAll1_absent (s : gostring) (old : rune) (new : gostring) :
  existsb (N.eqb old) s = false -> ReplaceAll1 s old new = s.
Proof.
  induction s as [|c s IH]; [reflexivity|]. simpl.
  intros H. apply orb_false_elim in H as [H1 H2].
  rewrite N.eqb_sym, H1. simpl. now rewrite IH.
Qed.

End GoStrFacts.

(** ** ChunkText *)

Module ChunkFacts.
Import GoInt Service GoStrFacts.

Lemma wrap_inRange (z : Z) : inRange z -> wrap z = z.
Proof.
  unfold inRange, wrap, minInt, maxInt. intros H.
  rewrite Z.mod_small; lia.
Qed.

Lemma wrap_range (z : Z) : inRange (wrap z).
Proof.
  unfold inRange, wrap, minInt, maxInt.
  assert (0 <= (z + 2 ^ 63) mod 2 ^ 64 < 2 ^ 64)%Z by (apply Z.mod_pos_bound; lia).
  lia.
Qed.

Lemma chunkStep_range (s : RAGService) :
  (0 < chunkSize s <= maxInt)%Z -> (0 < chunkStep s <= maxInt)%Z.
Proof.
  intros H. unfold chunkStep, sub.
  destruct (Z.leb_spec (wrap (chunkSize s - chunkOverlap s)) 0); [exact H|].
  generalize (wrap_range (chunkSize s - chunkOverlap s)). unfold inRange. lia.
Qed.

Lemma chunkStep_overlap (s : RAGService) :
  (0 < chunkSize s <= maxInt)%Z -> (0 <= chunkOverlap s < chunkSize s)%Z ->
  chunkStep s = (chunkSize s - chunkOverlap s)%Z.
Proof.
  intros H1 H2. unfold chunkStep, sub. rewrite wrap_inRange.
  - destruct (Z.leb_spec (chunkSize s - chunkOverlap s) 0); lia.
  - unfold inRange, minInt, maxInt in *. lia.
Qed.

Lemma chunkStep_capped (s : RAGService) :
  (0 < chunkSize s)%Z -> inRange (chunkOverlap s) ->
  (chunkSize s <= chunkOverlap s)%Z -> chunkStep s = chunkSize s.
Proof.
  intros H1 H2 H3. unfold chunkStep, sub. rewrite wrap_inRange.
  - destruct (Z.leb_spec (chunkSize s - chunkOverlap s) 0); lia.
  - unfold inRange, minInt, maxInt in *. lia.
Qed.

Section Loop.

Variable words : list gostring.
Variables size step : Z.
Hypothesis Hsize : (0 < size <= maxInt)%Z.
Hypothesis Hstep : (0 < step <= maxInt)%Z.
Hypothesis Hlen : (len words <= 2 ^ 62)%Z.

Let N := length words.
Let sz := Z.to_nat size.
Let st := Z.to_nat step.

Lemma window_length (k : nat) : length (window size step words k) <= sz.
Proof. unfold window. apply firstn_le_length. Qed.

Lemma window_to_end (k : nat) :
  N <= k * st + sz -> window size step words k = skipn (k * st) words.
Proof.
  intros H. unfold window. apply firstn_all2. rewrite length_skipn.
  fold N sz st. lia.
Qed.

Lemma sliceWords_window (k : nat) :
  k * st < N ->
  let i := Z.of_nat (k * st) in
  sliceWords words i (if (i + size >? len words)%Z then len words else (i + size)%Z)
  = Some (window size step words k).
Proof.
  intros Hk i. unfold sliceWords, len. fold N.
  assert (Hi : (0 <= i < Z.of_nat N)%Z) by (unfold i; lia).
  destruct (Z.gtb_spec (i + size) (Z.of_nat N)) as [Hgt | Hle].
  - replace ((0 <=? i) && (i <=? Z.of_nat N) && (Z.of_nat N <=? Z.of_nat N))%Z
      with true by (symmetry; rewrite !andb_true_iff; lia).
    f_equal. unfold window. fold st. unfold i. rewrite Nat2Z.id.
    rewrite !firstn_all2; [reflexivity | |]; rewrite length_skipn; fold N; lia.
  - replace ((0 <=? i) && (i <=? i + size) && (i + size <=? Z.of_nat N))%Z
      with true by (symmetry; rewrite !andb_true_iff; lia).
    f_equal. unfold window. fold st. unfold i. rewrite Nat2Z.id.
    f_equal. lia.
Qed.

(** The loop, entered before fragment [k] with [acc] built so far and all
    earlier fragments short of the end, returns; [m] is the number of
    fragments when it does. *)
Lemma chunkLoop_run (fuel : nat) :
  forall (k : nat) (acc : list gostring),
    N - k * st < fuel ->
    (forall j, j < k -> j * st + sz < N) ->
    exists m,
      k <= m /\
      chunkLoop fuel size step words (Z.of_nat (k * st)) acc
        = Returns (acc ++ map (fragment words size step) (seq k (m - k))) /\
      (forall j, j < m -> j * st < N) /\
      (forall j, S j < m -> j * st + sz < N) /\
      (k * st < N -> k < m /\ (N <= (m - 1) * st + sz \/ N <= m * st)) /\
      (N <= k * st -> m = k).
Proof.
  induction fuel as [|fuel IH]; intros k acc Hfuel Hinv; [lia|].
  assert (Hst : 0 < st) by (unfold st; lia).
  assert (HN : (Z.of_nat N <= 2 ^ 62)%Z) by exact Hlen.
  cbn [chunkLoop]. unfold len. fold N.
  destruct (Z.ltb_spec (Z.of_nat (k * st)) (Z.of_nat N)) as [Hlt | Hge].
  - assert (Hk : k * st < N) by lia.
    assert (Hsmall : k = 0 \/ (sz < N /\ st <= k * st)).
    { destruct k as [|k']; [now left | right]. split.
      - generalize (Hinv 0 ltac:(lia)). lia.
      - simpl. lia. }
    assert (Hadd : add (Z.of_nat (k * st)) size = (Z.of_nat (k * st) + size)%Z).
    { unfold add. apply wrap_inRange. unfold inRange, minInt, maxInt in *.
      destruct Hsmall as [-> | [H1 H2]]; [simpl; lia|].
      unfold sz in H1. lia. }
    rewrite Hadd.
    generalize (sliceWords_window k Hk). cbv zeta. unfold len. fold N.
    intros ->.
    destruct (Z.gtb_spec (Z.of_nat (k * st) + size) (Z.of_nat N)) as [Hgt | Hle].
    + rewrite Z.eqb_refl. exists (S k).
      replace (S k - k) with 1 by lia. simpl seq. simpl map.
      repeat split; try lia.
      * intros j Hj. destruct (Nat.eq_dec j k) as [-> | Hne]; [exact Hk|].
        generalize (Hinv j ltac:(lia)). lia.
      * intros j Hj. apply Hinv. lia.
    + destruct (Z.eqb_spec (Z.of_nat (k * st) + size) (Z.of_nat N)) as [Heq | Hne].
      * exists (S k).
        replace (S k - k) with 1 by lia. simpl seq. simpl map.
        repeat split; try lia.
        -- intros j Hj. destruct (Nat.eq_dec j k) as [-> | Hne]; [exact Hk|].
           generalize (Hinv j ltac:(lia)). lia.
        -- intros j Hj. apply Hinv. lia.
      * assert (Hcont : k * st + sz < N) by (unfold sz; lia).
        assert (Hnext : add (Z.of_nat (k * st)) step = Z.of_nat (S k * st)).
        { unfold add. rewrite wrap_inRange.
          - simpl. unfold st. lia.
          - unfold inRange, minInt, maxInt in *.
            destruct Hsmall as [-> | [H1 H2]]; [simpl; lia|].
            unfold st in H2. lia. }
        rewrite Hnext.
        destruct (IH (S k) (acc ++ [fragment words size step k])) as (m & Hm & Hrun & H1 & H2 & H3 & H4).
        { simpl. lia. }
        { intros j Hj. destruct (Nat.eq_dec j k) as [-> | Hne']; [exact Hcont|].
          apply Hinv. lia. }
        exists m. split; [lia|]. split.
        { fold (fragment words size step k). rewrite Hrun, <- app_assoc. f_equal.
          replace (m - k) with (S (m - S k)) by lia. reflexivity. }
        split; [exact H1|]. split; [exact H2|]. split; [|lia].
        intros _. split; [lia|].
        destruct (Nat.lt_ge_cases (S k * st) N) as [Hl | Hg].
        -- apply H3. exact Hl.
        -- right. rewrite (H4 Hg). exact Hg.
  - exists k. replace (k - k) with 0 by lia. simpl. rewrite app_nil_r.
    repeat split; try lia.
    + intros j Hj. generalize (Hinv j Hj). lia.
    + intros j Hj. apply Hinv. lia.
Qed.

End Loop.

Lemma chunkLoop_more_fuel (size step : Z) (words : list gostring) (fuel : nat) :
  forall (fuel' : nat) (i : Z) (acc r : list gostring),
    chunkLoop fuel size step words i acc = Returns r ->
    fuel <= fuel' ->
    chunkLoop fuel' size step words i acc = Returns r.
Proof.
  induction fuel as [|fuel IH]; intros fuel' i acc r Hrun Hle; [discriminate|].
  destruct fuel' as [|fuel']; [lia|].
  cbn [chunkLoop] in *.
  destruct (i <? len words)%Z; [|exact Hrun].
  destruct (sliceWords words i _); [|discriminate].
  destruct (_ =? len words)%Z; [exact Hrun|].
  apply IH; [exact Hrun | lia].
Qed.

Lemma words_bound (text : gostring) :
  (len text <= maxInt)%Z -> (len (Fields text) <= 2 ^ 62)%Z.
Proof.
  unfold len, maxInt. intros H. generalize (Fields_count text). lia.
Qed.

Lemma In_firstn_skipn {A} (l : list A) (a b : nat) (x : A) :
  In x (firstn a (skipn b l)) -> In x l.
Proof.
  intros H. rewrite <- (firstn_skipn b l). apply in_or_app. right.
  rewrite <- (firstn_skipn a (skipn b l)). apply in_or_app. now left.
Qed.

Lemma window_wordLike (size step : Z) (text : gostring) (k : nat) :
  Forall wordLike (window size step (Fields text) k).
Proof.
  unfold window. apply Forall_forall. intros w Hw.
  apply (proj1 (Forall_forall _ _) (Fields_wordLike text)).
  eapply In_firstn_skipn, Hw.
Qed.

(** The run of [ChunkText] for a positive size, in terms of windows. *)
Lemma ChunkText_run (s : RAGService) (text : gostring) :
  (0 < chunkSize s <= maxInt)%Z ->
  (len text <= maxInt)%Z ->
  let words := Fields text in
  let sz := Z.to_nat (chunkSize s) in
  let st := Z.to_nat (chunkStep s) in
  exists m,
    ChunkText s text
      = Returns (map (fragment words (chunkSize s) (chunkStep s)) (seq 0 m)) /\
    (forall j, j < m -> j * st < length words) /\
    (forall j, S j < m -> j * st + sz < length words) /\
    (words <> [] ->
     0 < m /\ (length words <= (m - 1) * st + sz \/ length words <= m * st)) /\
    (words = [] -> m = 0).
Proof.
  intros Hsize Htext words sz st.
  unfold ChunkText, ChunkTextFuel.
  destruct (Z.leb_spec (chunkSize s) 0) as [Hneg | _]; [lia|].
  destruct (@chunkLoop_run words (chunkSize s) (chunkStep s) Hsize
              (chunkStep_range s Hsize) (words_bound text Htext)
              (S (length words)) 0 [])
    as (m & _ & Hrun & H1 & H2 & H3 & H4); [simpl; lia | intros j Hj; lia |].
  exists m. fold words. simpl in Hrun. rewrite Nat.sub_0_r in Hrun.
  split; [exact Hrun|]. split; [exact H1|]. split; [exact H2|]. split.
  - intros Hne. apply H3. simpl. destruct words; [now elim Hne | simpl; lia].
  - intros ->. apply H4. simpl. lia.
Qed.

(** C2.  For a non-empty text, a positive size and [0 <= overlap < size],
    [ChunkText] returns the fragments number [0 .. m-1], where fragment [k]
    is the space-joined window of at most [size] words that starts at word
    [k * (size - overlap)]: successive fragments start [size - overlap]
    words apart; splitting a fragment gives its window back, hence at most
    [size] tokens; the last fragment runs to the end of the word sequence;
    and the result depends on the text, the size and the overlap only. *)
Theorem ChunkText_windows (s : RAGService) (text : gostring) :
  text <> [] ->
  (0 < chunkSize s <= maxInt)%Z ->
  (0 <= chunkOverlap s < chunkSize s)%Z ->
  (len text <= maxInt)%Z ->
  let words := Fields text in
  let size := Z.to_nat (chunkSize s) in
  let step := Z.to_nat (chunkSize s - chunkOverlap s) in
  let win := fun k => firstn size (skipn (k * step) words) in
  exists m,
    ChunkText s text = Returns (map (fun k => Join (win k) [SP]) (seq 0 m)) /\
    (forall k, k < m ->
       k * step < length words /\
       Fields (Join (win k) [SP]) = win k /\
       0 < length (Fields (Join (win k) [SP])) <= size) /\
    (forall k, S k < m -> k * step + size < length words) /\
    (m = 0 <-> words = []) /\
    (0 < m -> win (m - 1) = skipn ((m - 1) * step) words) /\
    (forall s' text',
       chunkSize s' = chunkSize s -> chunkOverlap s' = chunkOverlap s ->
       text' = text -> ChunkText s' text' = ChunkText s text).
Proof.
  intros _ Hsize Hov Htext words size step win.
  destruct (ChunkText_run s text Hsize Htext) as (m & Hrun & H1 & H2 & H3 & H4).
  rewrite (chunkStep_overlap s Hsize Hov) in *.
  fold words size step in H1, H2, H3, H4.
  assert (Hstep : step <= size) by (unfold step, size; lia).
  exists m. split; [exact Hrun|]. split; [|split; [exact H2|split; [|split]]].
  - intros k Hk. split; [now apply H1|].
    assert (HF : Fields (Join (win k) [SP]) = win k).
    { apply Fields_Join.
      apply (window_wordLike (chunkSize s) (chunkSize s - chunkOverlap s) text k). }
    split; [exact HF|]. rewrite HF. unfold win. split.
    + specialize (H1 k Hk). rewrite length_firstn, length_skipn.
      unfold size. lia.
    + apply firstn_le_length.
  - split.
    + intros ->. destruct words as [|w ws] eqn:E; [reflexivity|].
      assert (Hne : w :: ws <> []) by discriminate. apply H3 in Hne. lia.
    + exact H4.
  - intros Hm. unfold win. apply firstn_all2. rewrite length_skipn.
    assert (Hne : words <> []).
    { intros E. apply H4 in E. lia. }
    apply H3 in Hne as [_ Hend].
    assert ((m - 1) * step + step = m * step).
    { replace m with (S (m - 1)) at 2 by lia. simpl. lia. }
    lia.
  - intros s' text' E1 E2 ->. unfold ChunkText, ChunkTextFuel, chunkStep.
    now rewrite E1, E2.
Qed.

(** C7.  For a positive size, [ChunkText] returns for every overlap an
    [int] can hold: the fuel the model gives the loop is enough, and more
    fuel gives the same fragments.  When the overlap is not below the
    size, the step is the size, so that the fragments are the successive
    blocks of [size] words. *)
Theorem ChunkText_terminates (s : RAGService) (text : gostring) :
  (0 < chunkSize s)%Z ->
  inRange (chunkSize s) ->
  inRange (chunkOverlap s) ->
  (len text <= maxInt)%Z ->
  let words := Fields text in
  let size := Z.to_nat (chunkSize s) in
  (exists chunks,
      ChunkText s text = Returns chunks /\
      forall fuel, length words < fuel -> ChunkTextFuel fuel s text = Returns chunks)
  /\
  ((chunkSize s <= chunkOverlap s)%Z ->
   chunkStep s = chunkSize s /\
   exists m,
     ChunkText s text
       = Returns (map (fun k => Join (firstn size (skipn (k * size) words)) [SP])
                      (seq 0 m)) /\
     (m - 1) * size <= length words <= m * size).
Proof.
  intros Hpos Hsz Hov Htext words size.
  assert (Hsize : (0 < chunkSize s <= maxInt)%Z) by (unfold inRange in Hsz; lia).
  destruct (ChunkText_run s text Hsize Htext) as (m & Hrun & H1 & H2 & H3 & H4).
  fold words size in H1, H2, H3, H4.
  split.
  - eexists. split; [exact Hrun|]. intros fuel Hfuel.
    unfold ChunkText, ChunkTextFuel in *.
    destruct (Z.leb_spec (chunkSize s) 0) as [Hneg | _]; [lia|].
    eapply chunkLoop_more_fuel; [exact Hrun | fold words; lia].
  - intros Hcap. pose proof (chunkStep_capped s Hpos Hov Hcap) as Hstep.
    split; [exact Hstep|]. rewrite Hstep in *. fold size in H1, H3.
    exists m. split; [exact Hrun|].
    destruct words as [|w ws] eqn:E.
    + rewrite (H4 eq_refl). simpl. lia.
    + assert (Hne : w :: ws <> []) by discriminate.
      apply H3 in Hne as [Hm Hend].
      assert ((m - 1) * size + size = m * size).
      { replace m with (S (m - 1)) at 2 by lia. simpl. lia. }
      specialize (H1 (m - 1) ltac:(lia)). lia.
Qed.

End ChunkFacts.

(** ** GenerateEmbedding and IndexDocument *)

Module IndexFacts.
Import GoInt Service.

Section WithBackend.

Variables float32 Body RawJSON : Type.
Variable B : Backend float32 Body RawJSON.
Variable s : RAGService.

Local Abbreviation World := (World float32).
Local Abbreviation Row := (Row float32).

(** The embedding call writes to the log only. *)
Lemma GenerateEmbedding_world (text : gostring) (w : World) :
  fst (GenerateEmbedding B s text w)
  = logged w (EvPostEmbeddings float32 (ollamaURL s ++ lit "/api/embeddings")
                               (embeddingModel s) text).
Proof.
  unfold GenerateEmbedding.
  destruct (postEmbeddings B w _ _ text) as [err | resp]; [reflexivity|].
  destruct (negb _); [reflexivity|].
  destruct (decodeEmbedding B _) as [err | v]; [reflexivity|].
  now destruct (len v =? 0)%Z.
Qed.

Lemma GenerateEmbedding_rows (text : gostring) (w w' : World) r :
  GenerateEmbedding B s text w = (w', r) -> rows w' = rows w.
Proof.
  intros H. generalize (GenerateEmbedding_world text w). rewrite H.
  simpl. now intros ->.
Qed.

Lemma InsertChunk_rows (content source : gostring) (emb : list float32)
      (w w' : World) (r : option StoreError) :
  InsertChunk B content source emb w = (w', r) ->
  rows w' = rows w ++ match r with
                      | Some _ => []
                      | None => [mkRow content source emb]
                      end.
Proof.
  unfold InsertChunk. destruct (execInsert B w _); intros H; inversion H; subst; simpl.
  - now rewrite app_nil_r.
  - reflexivity.
Qed.

(** A failing fragment adds no row. *)
Lemma chunkFails_rows (source ch : gostring) (i : nat) (w w' : World) err :
  chunkFails B s source ch i w w' err -> rows w' = rows w /\ errorIndex err = i.
Proof.
  intros [(e & H & ->) | (emb & w1 & e & H1 & H2 & ->)]; split; try reflexivity.
  - eapply GenerateEmbedding_rows, H.
  - apply InsertChunk_rows in H2. apply GenerateEmbedding_rows in H1.
    rewrite H2, H1. apply app_nil_r.
Qed.

(** Fragments processed with success are the rows added, in order. *)
Lemma chunksOk_rows (source : gostring) (w w' : World) (chunks : list gostring) :
  chunksOk B s source w chunks w' ->
  exists added,
    rows w' = rows w ++ added /\
    map (@Content float32) added = chunks /\
    Forall (fun r => Source r = source) added.
Proof.
  induction 1 as [w | w w1 w2 ch rest (emb & w0 & _ & _ & Hrows) _ (added & E & Hc & Hs)].
  - exists []. rewrite app_nil_r. repeat split. constructor.
  - exists (mkRow ch source emb :: added). rewrite E, Hrows, <- app_assoc.
    repeat split; [simpl; now rewrite Hc | now constructor].
Qed.

(** Every run of the loop either processes all fragments with success, or
    processes a prefix with success and fails on the fragment after it. *)
Lemma indexLoop_run (source : gostring) (chunks : list gostring) :
  forall (i : nat) (w : World),
    (exists w', chunksOk B s source w chunks w' /\
                indexLoop B s source i chunks w = (w', None))
    \/
    (exists pre ch post wk w' err,
        chunks = pre ++ ch :: post /\
        chunksOk B s source w pre wk /\
        chunkFails B s source ch (i + length pre) wk w' err /\
        indexLoop B s source i chunks w = (w', Some err)).
Proof.
  induction chunks as [|ch rest IH]; intros i w.
  - left. exists w. split; [constructor | reflexivity].
  - cbn [indexLoop].
    destruct (GenerateEmbedding B s ch w) as [w1 [e | emb]] eqn:HE.
    + right. exists [], ch, rest, w, w1, (ErrEmbeddingChunk i e).
      split; [reflexivity|]. split; [constructor|]. split; [|reflexivity].
      left. exists e. rewrite Nat.add_0_r. now split.
    + destruct (InsertChunk B ch source emb w1) as [w2 [e | ]] eqn:HI.
      * right. exists [], ch, rest, w, w2, (ErrStoringChunk _ i e).
        split; [reflexivity|]. split; [constructor|]. split; [|reflexivity].
        right. exists emb, w1, e. rewrite Nat.add_0_r. now repeat split.
      * assert (Hok : chunkOk B s source ch w w2).
        { exists emb, w1. split; [exact HE|]. split; [exact HI|].
          rewrite (InsertChunk_rows _ _ _ _ HI).
          now rewrite (GenerateEmbedding_rows _ _ HE). }
        destruct (IH (S i) w2) as [(w' & Hall & Hrun) |
                                   (pre & c & post & wk & w' & err & E & Hpre & Hf & Hrun)].
        -- left. exists w'. split; [econstructor; eassumption | exact Hrun].
        -- right. exists (ch :: pre), c, post, wk, w', err.
           split; [now rewrite E|]. split; [econstructor; eassumption|].
           split; [|exact Hrun].
           simpl length. now rewrite Nat.add_succ_r.
Qed.

(** C1.  [IndexDocument] processes the fragments of the document in order,
    embedding and then inserting each.  There is a number [k] of fragments
    processed with success, one after the other; the rows added are those
    of fragments [0 .. k-1], in order.  Either [k] is the number of
    fragments and the result is [nil], or fragment [k] fails (its
    embedding, or its insertion), no row is added or removed by the
    failure, and the result is that error, naming index [k]. *)
Theorem IndexDocument_partial_success
        (content source : gostring) (chunks : list gostring) (w : World) :
  ChunkText s content = Returns chunks ->
  exists (k : nat) (wk : World) (added : list Row),
    k <= length chunks /\
    chunksOk B s source w (firstn k chunks) wk /\
    rows wk = rows w ++ added /\
    map (@Content float32) added = firstn k chunks /\
    Forall (fun r => Source r = source) added /\
    ((k = length chunks /\
      IndexDocument B s content source w = (wk, Returns None))
     \/
     (exists ch w' err,
         nth_error chunks k = Some ch /\
         chunkFails B s source ch k wk w' err /\
         errorIndex err = k /\
         rows w' = rows w ++ added /\
         IndexDocument B s content source w = (w', Returns (Some err)))).
Proof.
  intros Hchunks. unfold IndexDocument. rewrite Hchunks.
  destruct (indexLoop_run source chunks 0 w)
    as [(w' & Hall & Hrun) | (pre & ch & post & wk & w' & err & E & Hpre & Hf & Hrun)].
  - destruct (chunksOk_rows Hall) as (added & Hr & Hc & Hs).
    exists (length chunks), w', added. rewrite firstn_all, Hrun.
    repeat split; try assumption; [lia | now left].
  - destruct (chunksOk_rows Hpre) as (added & Hr & Hc & Hs).
    assert (Hfirst : firstn (length pre) chunks = pre).
    { rewrite E, firstn_app, Nat.sub_diag, firstn_all. simpl. apply app_nil_r. }
    exists (length pre), wk, added. rewrite Hfirst, Hrun.
    repeat split; try assumption.
    + rewrite E, length_app. simpl. lia.
    + right. exists ch, w', err. simpl in Hf.
      destruct (chunkFails_rows Hf) as [Hrows Hidx].
      repeat split; try assumption.
      * rewrite E, nth_error_app2, Nat.sub_diag by lia. reflexivity.
      * now rewrite Hrows.
Qed.

(** C9, as the code has it.  [GenerateEmbedding] returns an error exactly
    when the call to the embedding service fails, or the status is not
    200, or the body does not decode, or the decoded vector is empty, and
    the error says which: for a status other than 200 it carries the
    status and the object that [dec.Decode(&raw)] made of the body, not
    the body itself.  Otherwise it returns the decoded vector, which is
    not empty. *)
Theorem GenerateEmbedding_error_iff (text : gostring) (w : World) :
  let url := ollamaURL s ++ lit "/api/embeddings" in
  let call := postEmbeddings B w url (embeddingModel s) text in
  let result := snd (GenerateEmbedding B s text w) in
  ((exists e, result = inl e)
   <->
   ((exists cause, call = inl cause) \/
    (exists resp, call = inr resp /\ StatusCode resp <> 200%Z) \/
    (exists resp cause, call = inr resp /\ StatusCode resp = 200%Z /\
                        decodeEmbedding B (RespBody resp) = inl cause) \/
    (exists resp, call = inr resp /\ StatusCode resp = 200%Z /\
                  decodeEmbedding B (RespBody resp) = inr [])))
  /\
  (forall cause, call = inl cause -> result = inl (ErrCallingEmbeddings _ cause))
  /\
  (forall resp, call = inr resp -> StatusCode resp <> 200%Z ->
     result = inl (ErrEmbeddingsStatus (StatusCode resp) (decodeRaw B (RespBody resp))))
  /\
  (forall resp cause, call = inr resp -> StatusCode resp = 200%Z ->
     decodeEmbedding B (RespBody resp) = inl cause ->
     result = inl (ErrParsingEmbeddings _ cause))
  /\
  (forall resp, call = inr resp -> StatusCode resp = 200%Z ->
     decodeEmbedding B (RespBody resp) = inr [] ->
     result = inl (ErrEmptyVector _))
  /\
  (forall resp v, call = inr resp -> StatusCode resp = 200%Z ->
     decodeEmbedding B (RespBody resp) = inr v -> v <> [] ->
     result = inr v).
Proof.
  intros url call result. unfold result, GenerateEmbedding. fold url. fold call.
  destruct call as [cause | resp].
  { cbn [snd]. split; [split; [left | ]; eauto|].
    repeat split; intros; congruence. }
  destruct (Z.eqb_spec (StatusCode resp) 200) as [Hst | Hst]; cbn [negb snd].
  2:{ split; [split; [right; left | ]; eauto|].
      repeat split; intros; congruence. }
  destruct (decodeEmbedding B (RespBody resp)) as [cause | v] eqn:Hdec.
  { cbn [snd]. split; [split; [right; right; left | ]; eauto|].
    repeat split; intros; congruence. }
  destruct v as [|x v].
  { unfold len. cbn [length Z.of_nat Z.eqb snd].
    split; [split; [right; right; right | ]; eauto|].
    repeat split; intros; congruence. }
  replace (len (x :: v) =? 0)%Z with false
    by (symmetry; apply Z.eqb_neq; unfold len; simpl length; lia).
  cbn [snd]. split.
  - split; [intros [e He]; discriminate|].
    intros [(c & Hc) | [(r & Hr & Hn) | [(r & c & Hr & _ & Hd) | (r & Hr & _ & Hd)]]];
      congruence.
  - repeat split; intros; congruence.
Qed.

End WithBackend.

End IndexFacts.

(** ** The upload handler *)

Module UploadFacts.
Import GoInt Service Handlers GoStrFacts.

Lemma method_POST : negb (eqb MethodPost MethodPost) = false.
Proof. reflexivity. Qed.

Section Upload.

Variables float32 RawJSON : Type.
Variable showErr : IndexError RawJSON -> gostring.
Variable indexFn : IndexFn float32 RawJSON.

(** A request whose submitted content is all white space is answered with
    status 400 before [indexFn] is reached, whatever [indexFn] is. *)
Lemma UploadHandler_blank (form : Form) (w : World float32) :
  TrimSpace (fst (submitted form)) = [] ->
  exists resp,
    UploadHandler showErr indexFn (mkUpload MethodPost (inr form)) w = (w, Returns resp) /\
    status resp = StatusBadRequest.
Proof.
  destruct form as [text [[name [err | b]] | ]]; unfold submitted, UploadHandler;
    cbn [upMethod upForm formText formFile Filename ReadAll];
    rewrite method_POST.
  - intros _. destruct (negb _); eexists; split; reflexivity.
  - destruct (negb _); [intros _; eexists; split; reflexivity|].
    unfold uploadTail. destruct (isEmpty b); cbn [fst]; intros ->;
      eexists; split; reflexivity.
  - cbn [fst]. unfold uploadTail. cbn [isEmpty]. intros ->.
    eexists; split; reflexivity.
Qed.

(** C10, as the handler has it.  For a POST request with a file part
    that can be read: a file whose name does not end in [.txt] (in any
    letter case) is refused; otherwise a non-empty file content takes the
    place of the text field, which is then ignored, and it is handed to
    [indexFn] with the file name as source unless it is all white space,
    in which case the request is refused and nothing is indexed; an empty
    file content, like an absent file part, leaves the text field to be
    indexed with source [user_text]. *)
Theorem file_before_text (name bytes text : gostring) (w : World float32) :
  let withFile := mkUpload MethodPost (inr (mkForm text (Some (mkFile name (inr bytes))))) in
  let noFile := mkUpload MethodPost (inr (mkForm text None)) in
  let txt := HasSuffix (ToLower name) (lit ".txt") in
  (txt = false ->
   UploadHandler showErr indexFn withFile w
   = (w, Returns (httpError msgOnlyTxt StatusBadRequest)))
  /\
  (txt = true -> bytes <> [] -> TrimSpace bytes <> [] ->
   UploadHandler showErr indexFn withFile w
   = indexResponse showErr (indexFn bytes name w))
  /\
  (txt = true -> bytes <> [] -> TrimSpace bytes = [] ->
   UploadHandler showErr indexFn withFile w
   = (w, Returns (httpError msgNothing StatusBadRequest)))
  /\
  (txt = true -> bytes = [] -> TrimSpace text <> [] ->
   UploadHandler showErr indexFn withFile w
   = indexResponse showErr (indexFn text user_text w))
  /\
  (TrimSpace text <> [] ->
   UploadHandler showErr indexFn noFile w
   = indexResponse showErr (indexFn text user_text w)).
Proof.
  intros withFile noFile txt. unfold withFile, noFile, UploadHandler.
  cbn [upMethod upForm formText formFile Filename ReadAll].
  rewrite method_POST. fold txt.
  unfold uploadTail.
  repeat split.
  - now intros ->.
  - intros -> Hb Ht. apply isEmpty_false in Hb, Ht. cbn [negb].
    now rewrite Hb, Ht.
  - intros -> Hb Ht. apply isEmpty_false in Hb. cbn [negb].
    now rewrite Hb, Ht.
  - intros -> -> Ht. apply isEmpty_false in Ht. cbn [negb isEmpty].
    now rewrite Ht.
  - intros Ht. apply isEmpty_false in Ht. cbn [isEmpty]. now rewrite Ht.
Qed.

End Upload.

Section Endpoint.

Variables float32 Body RawJSON : Type.
Variable B : Backend float32 Body RawJSON.
Variable s : RAGService.

(** [IndexDocument] itself does not look at its content: with a positive
    chunk size a blank content has no words, hence no fragment, and the
    result is [nil] with nothing embedded or stored. *)
Remark IndexDocument_blank (content source : gostring) (w : World float32) :
  (0 < chunkSize s)%Z -> TrimSpace content = [] ->
  IndexDocument B s content source w = (w, Returns None).
Proof.
  intros Hsize Hblank. apply TrimSpace_nil, Fields_nil in Hblank.
  unfold IndexDocument, ChunkText, ChunkTextFuel. rewrite Hblank.
  destruct (Z.leb_spec (chunkSize s) 0); [lia | reflexivity].
Qed.

(** C3.  When the content submitted for indexing is empty after trimming
    white space, the upload endpoint answers with the client error 400 and
    leaves the world as it was: no row is inserted and no embedding or
    insert call is made. *)
Theorem blank_content_rejected (form : Form) (w : World float32) :
  TrimSpace (fst (submitted form)) = [] ->
  exists resp,
    UploadEndpoint B s (mkUpload MethodPost (inr form)) w = (w, Returns resp) /\
    status resp = StatusBadRequest /\
    rows (fst (UploadEndpoint B s (mkUpload MethodPost (inr form)) w)) = rows w /\
    log (fst (UploadEndpoint B s (mkUpload MethodPost (inr form)) w)) = log w.
Proof.
  intros H. unfold UploadEndpoint.
  destruct (UploadHandler_blank (indexErrorText B) (IndexDocument B s) form w H)
    as (resp & E & Hst).
  exists resp. rewrite E. now repeat split.
Qed.

End Endpoint.

End UploadFacts.

(** ** The query handler *)

Module QueryFacts.
Import GoInt Service Handlers GoStrFacts.

Lemma endsInTerminal_last (pre : list SSEvent) (e : SSEvent) :
  endsInTerminal (pre ++ [e]) = isTerminal e.
Proof. unfold endsInTerminal. now rewrite rev_unit. Qed.

Lemma endsInTerminal_none (evs : list SSEvent) :
  Forall (fun e => isTerminal e = false) evs -> endsInTerminal evs = false.
Proof.
  intros H. unfold endsInTerminal. apply Forall_rev in H.
  destruct (rev evs) as [|e l]; [reflexivity|]. now inversion H.
Qed.

(** How the event sequence of the loop ends, by how the stream ends. *)
Lemma streamLoop_end (incs : list Increment) :
  match streamEnd incs with
  | EndsDone => exists pre, streamLoop incs = pre ++ [doneEvent]
  | EndsError => exists pre cause, streamLoop incs = pre ++ [errorEvent cause]
  | EndsEOF => Forall (fun e => isTerminal e = false) (streamLoop incs)
  end.
Proof.
  induction incs as [|[response done | cause] rest IH]; cbn [streamEnd streamLoop].
  - constructor.
  - destruct done.
    + eexists. reflexivity.
    + destruct (streamEnd rest).
      * destruct IH as [pre ->]. eexists. now rewrite app_assoc.
      * destruct IH as (pre & cause & ->). eexists _, cause. now rewrite app_assoc.
      * apply Forall_app. split; [|exact IH].
        destruct (isEmpty response); now repeat constructor.
  - now exists [], cause.
Qed.

Lemma concat_nonempty (l : list gostring) :
  concat (filter (fun t => negb (isEmpty t)) l) = concat l.
Proof.
  induction l as [|[|c t] l IH]; [reflexivity | exact IH |].
  simpl. now rewrite IH.
Qed.

Lemma streamLoop_tokens (incs : list Increment) :
  tokens (streamLoop incs)
  = map escapeNewlines (filter (fun t => negb (isEmpty t)) (map fst (decoded incs))).
Proof.
  induction incs as [|[response done | cause] rest IH]; try reflexivity.
  cbn [streamLoop decoded map fst filter].
  destruct response as [|c t]; destruct done; cbn [isEmpty negb app tokens map];
    try rewrite IH; reflexivity.
Qed.

Lemma streamLoop_stops (pre : list Increment) (t : gostring) (post : list Increment) :
  streamLoop (pre ++ Chunk t true :: post) = streamLoop (pre ++ [Chunk t true]).
Proof.
  induction pre as [|[response done | cause] pre IH]; try reflexivity.
  cbn [app streamLoop]. destruct done; [reflexivity | now rewrite IH].
Qed.

(** C5, as the handler has it.  The loop forwards, in order, the
    non-empty partial texts of the increments it decodes, each with its
    line feeds written as backslash-n, and nothing after the first
    increment with the completion flag.  The forwarded tokens concatenate
    to the generated text with its line feeds written as backslash-n, so
    to the generated text itself when it holds no line feed. *)
Theorem stream_forwarding (incs : list Increment) :
  tokens (streamLoop incs)
    = map escapeNewlines
          (filter (fun t => negb (isEmpty t)) (map fst (decoded incs)))
  /\
  (forall pre t post,
      streamLoop (pre ++ Chunk t true :: post) = streamLoop (pre ++ [Chunk t true]))
  /\
  concat (tokens (streamLoop incs)) = escapeNewlines (generatedText incs)
  /\
  (existsb (N.eqb LF) (generatedText incs) = false ->
   concat (tokens (streamLoop incs)) = generatedText incs).
Proof.
  assert (H : concat (tokens (streamLoop incs)) = escapeNewlines (generatedText incs)).
  { rewrite streamLoop_tokens. unfold generatedText, escapeNewlines.
    rewrite ReplaceAll1_concat, <- (concat_nonempty (map _ (map fst (decoded incs)))).
    f_equal. induction (map fst (decoded incs)) as [|[|c t] l IH];
      [reflexivity | exact IH |].
    cbn [filter isEmpty negb map]. rewrite IH.
    destruct (ReplaceAll1 (c :: t) LF (lit "\n")) eqn:E; [|reflexivity].
    exfalso. unfold ReplaceAll1 in E. cbn [flat_map] in E.
    destruct (c =? LF)%N; discriminate. }
  split; [apply streamLoop_tokens|]. split; [apply streamLoop_stops|].
  split; [exact H|]. intros Hlf. rewrite H. now apply ReplaceAll1_absent.
Qed.

Section Handler.

Variables float32 Body RawJSON : Type.
Variable B : Backend float32 Body RawJSON.

(** C6, as the handler has it.  When the handler streams, the events are
    those of the decoding loop over the generation response.  They end in
    the [done] event when an increment carries the completion flag, in an
    [error] event when decoding fails first; when the response ends before
    either, no terminal event is sent at all. *)
Theorem Answer_stream_end (searchFn : SearchFn float32 RawJSON)
        (model url : gostring) (r : QueryRequest) (w w' : World float32)
        (evs : list SSEvent) :
  QueryHandler B searchFn model url r w = (w', Stream evs) ->
  exists w1 prompt incs,
    postGenerate B w1 (url ++ lit "/api/generate") model prompt = inr incs /\
    evs = streamLoop incs /\
    match streamEnd incs with
    | EndsDone => (exists pre, evs = pre ++ [doneEvent]) /\ endsInTerminal evs = true
    | EndsError =>
        (exists pre cause, evs = pre ++ [errorEvent cause]) /\ endsInTerminal evs = true
    | EndsEOF =>
        Forall (fun e => isTerminal e = false) evs /\ endsInTerminal evs = false
    end.
Proof.
  unfold QueryHandler.
  destruct (negb (eqb (qMethod r) _)); [discriminate|].
  destruct (isEmpty _); [discriminate|].
  destruct (searchFn _ _ w) as [w1 [err | docs]]; [discriminate|].
  destruct (negb (qFlusher r)); [discriminate|].
  destruct (postGenerate B w1 _ model _) as [err | incs] eqn:Hpost; [discriminate|].
  intros H. inversion H; subst. eexists w1, _, incs.
  split; [exact Hpost|]. split; [reflexivity|].
  generalize (streamLoop_end incs). destruct (streamEnd incs).
  - intros [pre E]. split; [now exists pre|]. rewrite E. apply endsInTerminal_last.
  - intros (pre & cause & E). split; [now exists pre, cause|].
    rewrite E. apply endsInTerminal_last.
  - intros HF. split; [exact HF | now apply endsInTerminal_none].
Qed.

(** The handler reads parameter [q] and nothing else of the query. *)
Lemma QueryHandler_params (searchFn : SearchFn float32 RawJSON)
      (model url : gostring) (r r' : QueryRequest) (w : World float32) :
  qMethod r = qMethod r' -> qFlusher r = qFlusher r' ->
  Get (qParams r) (lit "q") = Get (qParams r') (lit "q") ->
  QueryHandler B searchFn model url r w = QueryHandler B searchFn model url r' w.
Proof. unfold QueryHandler. now intros -> -> ->. Qed.

(** C4.  Whatever the request holds, parameter [k] included, the only
    search that the query endpoint issues asks for 50 results. *)
Theorem QueryEndpoint_topK (s : RAGService) (r : QueryRequest) (w : World float32) :
  exists new,
    log (fst (QueryEndpoint B s r w)) = log w ++ new /\
    forall v k, In (EvSearch v k) new -> k = 50%Z.
Proof.
  unfold QueryEndpoint, QueryHandler.
  destruct (negb (eqb (qMethod r) _)).
  { exists []. split; [now rewrite app_nil_r | intros v k []]. }
  destruct (isEmpty _).
  { exists []. split; [now rewrite app_nil_r | intros v k []]. }
  unfold SearchSimilarContents.
  destruct (GenerateEmbedding B s _ w) as [w1 [err | emb]] eqn:HE;
    generalize (IndexFacts.GenerateEmbedding_world B s
                  (TrimSpace (Get (qParams r) (lit "q"))) w);
    rewrite HE; cbn [fst]; intros ->.
  { eexists. split; [reflexivity|]. intros v k [H | []]. discriminate. }
  unfold SearchSimilar.
  destruct (querySimilar B _ emb 50) as [c | c | docs]; cbn [fst log logged].
  1,2: eexists; rewrite <- app_assoc; (split; [reflexivity|]);
       intros v k [H | [H | []]]; [discriminate | now inversion H].
  destruct (negb (qFlusher r)); cbn [fst log logged].
  { eexists; rewrite <- app_assoc; (split; [reflexivity|]).
    intros v k [H | [H | []]]; [discriminate | now inversion H]. }
  destruct (postGenerate B _ _ _ _); cbn [fst log logged];
    eexists; rewrite <- !app_assoc; (split; [reflexivity|]);
    intros v k [H | [H | [H | []]]]; try discriminate; now inversion H.
Qed.

End Handler.

End QueryFacts.

(** ** The statements at sample inputs *)

Module Checks.
Import GoInt Service Handlers Samples.

(** Size 4 and overlap 2 on a text of eight words: three fragments, two
    words apart. *)
Example ChunkText_sky : ChunkText svc skyText = Returns skyChunks.
Proof. reflexivity. Qed.

(** Size 2 and overlap 5: the step is the size. *)
Example ChunkText_capped :
  ChunkText svcCapped skyText
  = Returns [lit "the sky"; lit "is blue"; lit "the grass"; lit "is green"].
Proof. reflexivity. Qed.

(** A size that is not positive: the text comes back whole. *)
Example ChunkText_degenerate :
  ChunkText (NewRAGService [] [] [] 0 0) skyText = Returns [skyText].
Proof. reflexivity. Qed.

Lemma ChunkText_windows_witness :
  exists m,
    ChunkText svc skyText
    = Returns (map (fun k => Join (firstn 4 (skipn (k * 2) (Fields skyText))) [SP])
                   (seq 0 m)) /\
    (0 < m -> firstn 4 (skipn ((m - 1) * 2) (Fields skyText))
              = skipn ((m - 1) * 2) (Fields skyText)).
Proof.
  destruct (@ChunkFacts.ChunkText_windows svc skyText) as (m & H1 & _ & _ & _ & H2 & _).
  - discriminate.
  - unfold maxInt. simpl. lia.
  - simpl. lia.
  - unfold maxInt, len. simpl. lia.
  - exists m. split; [exact H1 | exact H2].
Defined.

Lemma ChunkText_terminates_witness :
  (exists chunks, ChunkText svcCapped skyText = Returns chunks) /\
  chunkStep svcCapped = 2%Z.
Proof.
  destruct (@ChunkFacts.ChunkText_terminates svcCapped skyText)
    as [(chunks & H & _) Hcap].
  - simpl. lia.
  - unfold inRange, minInt, maxInt. simpl. lia.
  - unfold inRange, minInt, maxInt. simpl. lia.
  - unfold maxInt, len. simpl. lia.
  - split; [now exists chunks|]. apply Hcap. simpl. lia.
Defined.

(** The second embedding call fails: one row stays, the error names
    index 1. *)
Example IndexDocument_second_embedding_fails :
  IndexDocument (backend (Some 2) []) svc skyText doc1 emptyWorld
  = (mkWorld
       [mkRow (lit "the sky is blue") doc1 [15%Z]]
       [EvPostEmbeddings Z (lit "http://localhost:11434/api/embeddings")
                         (lit "nomic-embed-text") (lit "the sky is blue");
        EvInsert (lit "the sky is blue") doc1 [15%Z];
        EvPostEmbeddings Z (lit "http://localhost:11434/api/embeddings")
                         (lit "nomic-embed-text") (lit "is blue the grass")],
     Returns (Some (ErrEmbeddingChunk 1
                      (ErrCallingEmbeddings _ (lit "connection refused"))))).
Proof. reflexivity. Qed.

Lemma IndexDocument_partial_success_witness :
  exists (k : nat) (wk : World Z) (added : list (Row Z)),
    k <= 3 /\
    rows wk = added /\
    map (@Content Z) added = firstn k skyChunks /\
    ((k = 3 /\
      IndexDocument (backend (Some 2) []) svc skyText doc1 emptyWorld
      = (wk, Returns None))
     \/
     (exists ch w' err,
         nth_error skyChunks k = Some ch /\
         errorIndex err = k /\
         rows w' = added /\
         IndexDocument (backend (Some 2) []) svc skyText doc1 emptyWorld
         = (w', Returns (Some err)))).
Proof.
  destruct (@IndexFacts.IndexDocument_partial_success Z SBody gostring
              (backend (Some 2) []) svc skyText doc1 skyChunks emptyWorld)
    as (k & wk & added & Hk & _ & Hrows & Hc & _ & Hend).
  - reflexivity.
  - exists k, wk, added. split; [exact Hk|]. split; [exact Hrows|].
    split; [exact Hc|].
    destruct Hend as [Hall | (ch & w' & err & Hn & _ & Hi & Hr & Hrun)].
    + left. exact Hall.
    + right. exists ch, w', err. repeat split; assumption.
Defined.

Lemma GenerateEmbedding_error_iff_witness :
  snd (GenerateEmbedding (backend None []) svc (lit "hello") emptyWorld)
  = inr [5%Z].
Proof.
  apply (@IndexFacts.GenerateEmbedding_error_iff Z SBody gostring
           (backend None []) svc (lit "hello") emptyWorld) with (resp := mkResp 200 (inr [5%Z]));
    [reflexivity | reflexivity | reflexivity | discriminate].
Defined.

Lemma blank_content_rejected_witness :
  exists resp,
    UploadEndpoint (backend None []) svc
                   (mkUpload MethodPost (inr (mkForm [SP; SP] None))) emptyWorld
    = (emptyWorld, Returns resp) /\
    status resp = StatusBadRequest.
Proof.
  destruct (@UploadFacts.blank_content_rejected Z SBody gostring
              (backend None []) svc (mkForm [SP; SP] None) emptyWorld)
    as (resp & H & Hst & _).
  - reflexivity.
  - exists resp. split; [exact H | exact Hst].
Defined.

(** The file is blank but not empty: the text is not used, and the
    request is refused although indexing the file content would not
    have failed. *)
Lemma blank_file_counterexample :
  isEmpty [SP] = false /\
  UploadEndpoint (backend None []) svc blankFileUpload emptyWorld
  = (emptyWorld, Returns (httpError msgNothing StatusBadRequest)) /\
  UploadEndpoint (backend None []) svc blankFileUpload emptyWorld
  <> indexResponse (indexErrorText (backend None []))
                   (IndexDocument (backend None []) svc [SP] (lit "a.txt") emptyWorld).
Proof.
  split; [reflexivity|]. split; [reflexivity|]. vm_compute. discriminate.
Qed.

Lemma file_before_text_witness :
  UploadEndpoint (backend None []) svc fileAndTextUpload emptyWorld
  = indexResponse (indexErrorText (backend None []))
                  (IndexDocument (backend None []) svc (lit "from the file")
                                 (lit "notes.txt") emptyWorld).
Proof.
  apply (@UploadFacts.file_before_text Z gostring (indexErrorText (backend None []))
           (IndexDocument (backend None []) svc)
           (lit "notes.txt") (lit "from the file") (lit "hello") emptyWorld);
    [reflexivity | discriminate | discriminate].
Defined.

(** [k=3] is sent, 50 is asked for. *)
Example query_k3_searches_50 :
  filter (fun e => match e with EvSearch _ _ => true | _ => false end)
         (log (fst (QueryEndpoint (backend None goStream) svc queryK3 emptyWorld)))
  = [EvSearch [5%Z] 50].
Proof. reflexivity. Qed.

Lemma QueryEndpoint_topK_witness :
  exists new,
    log (fst (QueryEndpoint (backend None goStream) svc queryK3 emptyWorld))
    = new /\
    forall v k, In (EvSearch v k) new -> k = 50%Z.
Proof.
  destruct (@QueryFacts.QueryEndpoint_topK Z SBody gostring
              (backend None goStream) svc queryK3 emptyWorld) as (new & H1 & H2).
  exists new. split; [exact H1 | exact H2].
Defined.

(** The three tokens of the streaming scenario, then [done]. *)
Example streamLoop_go :
  streamLoop goStream
  = [Data (lit "Go"); Data (lit " was"); Data (lit " created"); doneEvent].
Proof. reflexivity. Qed.

Lemma stream_forwarding_witness :
  concat (tokens (streamLoop goStream)) = lit "Go was created".
Proof.
  change (lit "Go was created") with (generatedText goStream).
  apply (@QueryFacts.stream_forwarding goStream). reflexivity.
Defined.

(** A line feed in the generated text is forwarded as two other items. *)
Lemma stream_newline_counterexample :
  tokens (streamLoop twoLines) = [lit "a\nb"] /\
  generatedText twoLines = lit "a" ++ [LF] ++ lit "b" /\
  concat (tokens (streamLoop twoLines)) <> generatedText twoLines.
Proof.
  split; [reflexivity|]. split; [reflexivity|]. vm_compute. discriminate.
Qed.

(** The escape cannot be undone in general: a text that holds a line
    feed and one that holds a backslash and an [n] in its place are
    forwarded as the same token. *)
Example escapeNewlines_collides :
  escapeNewlines (lit "a" ++ [LF] ++ lit "b") = escapeNewlines (lit "a\nb") /\
  lit "a" ++ [LF] ++ lit "b" <> lit "a\nb".
Proof. split; [reflexivity | discriminate]. Qed.

Lemma Answer_stream_end_witness :
  exists pre,
    streamLoop goStream = pre ++ [doneEvent] /\
    endsInTerminal (streamLoop goStream) = true.
Proof.
  destruct (@QueryFacts.Answer_stream_end Z SBody gostring (backend None goStream)
              (SearchSimilarContents (backend None goStream) svc)
              (llmModel svc) (ollamaURL svc) queryK3 emptyWorld
              (fst (QueryEndpoint (backend None goStream) svc queryK3 emptyWorld))
              (streamLoop goStream))
    as (w1 & prompt & incs & Hpost & Hevs & Hend).
  - reflexivity.
  - simpl in Hpost. inversion Hpost; subst incs.
    simpl in Hend. destruct Hend as [[pre Hpre] Hterm].
    exists pre. split; [exact Hpre | exact Hterm].
Defined.

(** The response ends after an increment without the completion flag:
    the handler streams that token and no terminal event. *)
Lemma stream_cut_counterexample :
  snd (QueryEndpoint (backend None cutStream) svc queryK3 emptyWorld)
  = Stream [Data (lit "Go")] /\
  endsInTerminal [Data (lit "Go")] = false.
Proof. split; reflexivity. Qed.

End Checks.

(** ** More on ChunkText *)

Module ChunkMore.
Import GoInt Service GoStrFacts ChunkFacts.

Lemma fragment_nth (words : list gostring) (size step : Z) (m k : nat) :
  k < m ->
  nth_error (map (fragment words size step) (seq 0 m)) k
  = Some (fragment words size step k).
Proof.
  intros Hk. rewrite nth_error_map, nth_error_seq.
  destruct (Nat.ltb_spec k m); [reflexivity | lia].
Qed.

Lemma Fields_fragment (text : gostring) (size step : Z) (k : nat) :
  Fields (fragment (Fields text) size step k) = window size step (Fields text) k.
Proof. apply Fields_Join, window_wordLike. Qed.

Lemma window_size (words : list gostring) (size step : Z) (k : nat) :
  length (window size step words k)
  = Nat.min (Z.to_nat size) (length words - k * Z.to_nat step).
Proof. unfold window. now rewrite length_firstn, length_skipn. Qed.

(** X1.  With [0 <= overlap < size] no word is lost: the word at position [j]
    of the text is a token of some fragment [k], at position
    [j - k * step] of it. *)
Theorem ChunkText_covers (s : RAGService) (text : gostring) :
  (0 < chunkSize s <= maxInt)%Z ->
  (0 <= chunkOverlap s < chunkSize s)%Z ->
  (len text <= maxInt)%Z ->
  let step := Z.to_nat (chunkSize s - chunkOverlap s) in
  exists chunks,
    ChunkText s text = Returns chunks /\
    forall j w,
      nth_error (Fields text) j = Some w ->
      exists k ch,
        nth_error chunks k = Some ch /\
        k * step <= j /\
        nth_error (Fields ch) (j - k * step) = Some w.
Proof.
  intros Hsize Hov Htext step.
  destruct (ChunkText_run s text Hsize Htext) as (m & Hrun & H1 & H2 & H3 & H4).
  rewrite (chunkStep_overlap s Hsize Hov) in *. fold step in H1, H2, H3.
  set (sz := Z.to_nat (chunkSize s)) in *.
  set (words := Fields text) in *.
  assert (Hst : 0 < step <= sz) by (unfold step, sz; lia).
  eexists. split; [exact Hrun|]. intros j w Hj.
  assert (HjN : j < length words) by (apply nth_error_Some; congruence).
  assert (Hne : words <> []) by (intros E; rewrite E in HjN; simpl in HjN; lia).
  destruct (H3 Hne) as [Hm Hend].
  assert (Hlast : length words <= (m - 1) * step + sz).
  { assert ((m - 1) * step + step = m * step).
    { replace m with (S (m - 1)) at 2 by lia. simpl. lia. }
    lia. }
  assert (Hk : exists k, k < m /\ k * step <= j /\ j < k * step + sz).
  { destruct (Nat.le_gt_cases (j / step) (m - 1)) as [Hle | Hgt].
    - exists (j / step).
      pose proof (Nat.Div0.mul_div_le j step).
      pose proof (Nat.mul_succ_div_gt j step ltac:(lia)).
      repeat split; nia.
    - exists (m - 1).
      pose proof (Nat.Div0.mul_div_le j step).
      repeat split; nia. }
  destruct Hk as (k & Hkm & Hlo & Hhi).
  exists k, (fragment words (chunkSize s) (chunkSize s - chunkOverlap s) k).
  split; [now apply fragment_nth|]. split; [exact Hlo|].
  unfold words at 1. rewrite Fields_fragment. fold words.
  unfold window. fold step sz. rewrite nth_error_firstn, nth_error_skipn.
  destruct (Nat.ltb_spec (j - k * step) sz); [|lia].
  now replace (k * step + (j - k * step)) with j by lia.
Qed.

(** X2.  For a positive size and any overlap, there are no more fragments than
    words, and every fragment is non-empty and holds between one and
    [size] tokens. *)
Theorem ChunkText_fragments (s : RAGService) (text : gostring) :
  (0 < chunkSize s)%Z ->
  inRange (chunkSize s) ->
  inRange (chunkOverlap s) ->
  (len text <= maxInt)%Z ->
  exists chunks,
    ChunkText s text = Returns chunks /\
    length chunks <= length (Fields text) /\
    Forall (fun ch => ch <> [] /\
                      0 < length (Fields ch) <= Z.to_nat (chunkSize s)) chunks.
Proof.
  intros Hpos Hsz Hov Htext.
  assert (Hsize : (0 < chunkSize s <= maxInt)%Z) by (unfold inRange in Hsz; lia).
  destruct (ChunkText_run s text Hsize Htext) as (m & Hrun & H1 & _ & _ & _).
  pose proof (chunkStep_range s Hsize) as Hstep.
  set (st := Z.to_nat (chunkStep s)) in *.
  assert (Hst : 0 < st) by (unfold st; lia).
  eexists. split; [exact Hrun|]. split.
  - rewrite length_map, length_seq. destruct m as [|m']; [lia|].
    specialize (H1 m' ltac:(lia)). nia.
  - apply Forall_forall. intros ch Hin.
    apply in_map_iff in Hin as (k & <- & Hk). apply in_seq in Hk.
    specialize (H1 k ltac:(lia)).
    assert (Hlen : 0 < length (Fields (fragment (Fields text) (chunkSize s)
                                                (chunkStep s) k))
                   <= Z.to_nat (chunkSize s)).
    { rewrite Fields_fragment, window_size. fold st. lia. }
    split; [|exact Hlen]. intros E. rewrite E in Hlen. simpl in Hlen. lia.
Qed.

(** For a positive size no fragment is empty. *)
Lemma ChunkText_nonempty (s : RAGService) (text : gostring) :
  (0 < chunkSize s <= maxInt)%Z ->
  (len text <= maxInt)%Z ->
  exists chunks,
    ChunkText s text = Returns chunks /\ Forall (fun ch => ch <> []) chunks.
Proof.
  intros Hsize Htext.
  destruct (ChunkText_run s text Hsize Htext) as (m & Hrun & H1 & _ & _ & _).
  pose proof (chunkStep_range s Hsize) as Hstep.
  eexists. split; [exact Hrun|].
  apply Forall_forall. intros ch Hin.
  apply in_map_iff in Hin as (k & <- & Hk). apply in_seq in Hk.
  specialize (H1 k ltac:(lia)). intros E.
  apply (f_equal Fields) in E. rewrite Fields_fragment in E.
  apply (f_equal (@length _)) in E. rewrite window_size in E.
  simpl in E. lia.
Qed.

Lemma firstn_add {A} (a b : nat) (l : list A) :
  firstn (a + b) l = firstn a l ++ firstn b (skipn a l).
Proof.
  revert l; induction a as [|a IH]; intros l; [reflexivity|].
  destruct l as [|x l]; simpl; [now rewrite firstn_nil | now rewrite IH].
Qed.

(** Successive blocks of [sz] items make up a prefix. *)
Lemma concat_blocks {A} (sz : nat) (l : list A) (m : nat) :
  concat (map (fun k => firstn sz (skipn (k * sz) l)) (seq 0 m)) = firstn (m * sz) l.
Proof.
  induction m as [|m IH]; [reflexivity|].
  rewrite seq_S, map_app, concat_app, IH. simpl.
  rewrite app_nil_r, <- firstn_add. f_equal. lia.
Qed.

Lemma Join_cons (a : gostring) (rest : list gostring) (sep : gostring) :
  rest <> [] -> Join (a :: rest) sep = a ++ sep ++ Join rest sep.
Proof. destruct rest; [easy | reflexivity]. Qed.

Lemma Join_app (l1 l2 : list gostring) (sep : gostring) :
  l1 <> [] -> l2 <> [] ->
  Join (l1 ++ l2) sep = Join l1 sep ++ sep ++ Join l2 sep.
Proof.
  intros H1 H2. induction l1 as [|a l1 IH]; [easy|].
  destruct l1 as [|b l1].
  - simpl app. now rewrite Join_cons.
  - change ((a :: b :: l1) ++ l2) with (a :: (b :: l1) ++ l2).
    rewrite Join_cons by (simpl; discriminate).
    rewrite IH by discriminate.
    rewrite (@Join_cons a (b :: l1) sep) by discriminate.
    now rewrite <- !app_assoc.
Qed.

(** Joining joined groups is joining all their items. *)
Lemma Join_concat (groups : list (list gostring)) (sep : gostring) :
  Forall (fun g => g <> []) groups ->
  Join (map (fun g => Join g sep) groups) sep = Join (concat groups) sep.
Proof.
  induction 1 as [|g groups Hg Hall IH]; [reflexivity|].
  destruct groups as [|g' groups].
  - simpl. now rewrite app_nil_r.
  - change (map (fun g => Join g sep) (g :: g' :: groups))
      with (Join g sep :: map (fun g => Join g sep) (g' :: groups)).
    rewrite Join_cons by discriminate. rewrite IH.
    change (concat (g :: g' :: groups)) with (g ++ concat (g' :: groups)).
    rewrite Join_app; [reflexivity | exact Hg |].
    inversion Hall; subst. simpl. destruct g'; [easy | discriminate].
Qed.

(** X3.  When the step is the size (overlap 0, or an overlap that is not below
    the size), the fragments split the words of the text without loss or
    repetition: their tokens, put end to end, are the words of the text,
    and joining the fragments with spaces gives the text with its white
    space normalised. *)
Theorem ChunkText_rejoin (s : RAGService) (text : gostring) :
  (0 < chunkSize s)%Z ->
  inRange (chunkSize s) ->
  inRange (chunkOverlap s) ->
  (len text <= maxInt)%Z ->
  chunkStep s = chunkSize s ->
  exists chunks,
    ChunkText s text = Returns chunks /\
    concat (map Fields chunks) = Fields text /\
    Join chunks [SP] = Join (Fields text) [SP].
Proof.
  intros Hpos Hsz Hov Htext Hstep.
  assert (Hsize : (0 < chunkSize s <= maxInt)%Z) by (unfold inRange in Hsz; lia).
  destruct (ChunkText_run s text Hsize Htext) as (m & Hrun & H1 & _ & H3 & H4).
  rewrite Hstep in *.
  set (sz := Z.to_nat (chunkSize s)) in *.
  set (words := Fields text) in *.
  assert (Hsz0 : 0 < sz) by (unfold sz; lia).
  assert (Hall : concat (map (window (chunkSize s) (chunkSize s) words) (seq 0 m))
                 = words).
  { unfold window. fold sz. rewrite concat_blocks. apply firstn_all2.
    destruct words as [|w ws] eqn:E; [simpl; lia|].
    assert (Hne : w :: ws <> []) by discriminate.
    destruct (H3 Hne) as [Hm Hend].
    assert ((m - 1) * sz + sz = m * sz).
    { replace m with (S (m - 1)) at 2 by lia. simpl. lia. }
    lia. }
  eexists. split; [exact Hrun|]. split.
  - rewrite map_map.
    transitivity (concat (map (window (chunkSize s) (chunkSize s) words) (seq 0 m)));
      [|exact Hall].
    f_equal. apply map_ext. intros k. apply Fields_fragment.
  - transitivity (Join (concat (map (window (chunkSize s) (chunkSize s) words)
                                    (seq 0 m))) [SP]); [|now rewrite Hall].
    rewrite <- Join_concat.
    + now rewrite map_map.
    + apply Forall_forall. intros g Hin.
      apply in_map_iff in Hin as (k & <- & Hk). apply in_seq in Hk.
      specialize (H1 k ltac:(lia)). intros E.
      apply (f_equal (@length _)) in E. rewrite window_size in E.
      fold sz words in E. simpl in E. lia.
Qed.

End ChunkMore.

(** ** More on IndexDocument and SearchSimilarContents *)

Module IndexMore.
Import GoInt Service Traces IndexFacts.

Section WithBackend.

Variables float32 Body RawJSON : Type.
Variable B : Backend float32 Body RawJSON.
Variable s : RAGService.

Local Abbreviation World := (World float32).

Lemma GenerateEmbedding_log (text : gostring) (w w' : World) r :
  GenerateEmbedding B s text w = (w', r) ->
  log w' = log w ++ [embedEvent float32 s text] /\ rows w' = rows w.
Proof.
  intros H. generalize (GenerateEmbedding_world B s text w). rewrite H.
  cbn [fst]. now intros ->.
Qed.

Lemma InsertChunk_log (content source : gostring) (emb : list float32)
      (w w' : World) (r : option StoreError) :
  InsertChunk B content source emb w = (w', r) ->
  log w' = log w ++ [EvInsert content source emb].
Proof.
  unfold InsertChunk. destruct (execInsert B w _); intros H; now inversion H.
Qed.

(** What a run of the loop leaves in the rows and in the log: [done]
    are the fragments stored, with their embeddings. *)
Lemma indexLoop_trace (source : gostring) (chunks : list gostring) :
  forall (i : nat) (w w' : World) (r : option (IndexError RawJSON)),
    indexLoop B s source i chunks w = (w', r) ->
    exists done : list (gostring * list float32),
      map fst done = firstn (length done) chunks /\
      rows w' = rows w ++ map (stored source) done /\
      match r with
      | None =>
          length done = length chunks /\
          log w' = log w ++ flat_map (okEvents s source) done
      | Some (ErrEmbeddingChunk k _) =>
          k = i + length done /\
          exists ch,
            nth_error chunks (length done) = Some ch /\
            log w' = log w ++ flat_map (okEvents s source) done
                           ++ [embedEvent float32 s ch]
      | Some (ErrStoringChunk _ k _) =>
          k = i + length done /\
          exists ch emb,
            nth_error chunks (length done) = Some ch /\
            log w' = log w ++ flat_map (okEvents s source) done
                           ++ [embedEvent float32 s ch; EvInsert ch source emb]
      end.
Proof.
  induction chunks as [|ch rest IH]; intros i w w' r Hrun.
  - inversion Hrun; subst. exists []. simpl. now rewrite !app_nil_r.
  - cbn [indexLoop] in Hrun.
    destruct (GenerateEmbedding B s ch w) as [w1 [e | emb]] eqn:HE;
      destruct (GenerateEmbedding_log _ _ HE) as [Hl1 Hr1].
    { inversion Hrun; subst. exists []. simpl. rewrite app_nil_r, Nat.add_0_r.
      repeat split; try assumption. now exists ch. }
    destruct (InsertChunk B ch source emb w1) as [w2 [e | ]] eqn:HI;
      pose proof (InsertChunk_log _ _ _ _ HI) as Hl2;
      pose proof (InsertChunk_rows _ _ _ _ _ HI) as Hr2.
    { inversion Hrun; subst. exists []. simpl.
      rewrite app_nil_r, Nat.add_0_r in *.
      repeat split; try congruence. exists ch, emb. split; [reflexivity|].
      now rewrite Hl2, Hl1, <- app_assoc. }
    destruct (IH (S i) w2 w' r Hrun) as (done & Hfst & Hrows & Hlog).
    exists ((ch, emb) :: done). split; [simpl; now rewrite Hfst|]. split.
    { rewrite Hrows, Hr2, Hr1, <- app_assoc. reflexivity. }
    assert (Hpre : log w2 = log w ++ okEvents s source (ch, emb)).
    { rewrite Hl2, Hl1, <- app_assoc. reflexivity. }
    destruct r as [[k e | k e] | ]; cbn [length flat_map nth_error].
    + destruct Hlog as (-> & c & Hn & Hlog). split; [lia|].
      exists c. split; [exact Hn|]. now rewrite Hlog, Hpre, <- !app_assoc.
    + destruct Hlog as (-> & c & v & Hn & Hlog). split; [lia|].
      exists c, v. split; [exact Hn|]. now rewrite Hlog, Hpre, <- !app_assoc.
    + destruct Hlog as (Hlen & Hlog). split; [now rewrite Hlen|].
      now rewrite Hlog, Hpre, <- !app_assoc.
Qed.

(** X4.  The calls that [IndexDocument] makes.  Each fragment that is stored
    costs one embedding call, followed at once by its insert, fragment
    after fragment; a failing fragment ends the log with its embedding
    call, or with that call and the failing insert, and no later fragment
    is sent anywhere. *)
Theorem IndexDocument_trace (content source : gostring) (chunks : list gostring)
        (w w' : World) (r : option (IndexError RawJSON)) :
  ChunkText s content = Returns chunks ->
  IndexDocument B s content source w = (w', Returns r) ->
  exists done : list (gostring * list float32),
    map fst done = firstn (length done) chunks /\
    rows w' = rows w ++ map (stored source) done /\
    match r with
    | None =>
        length done = length chunks /\
        log w' = log w ++ flat_map (okEvents s source) done
    | Some (ErrEmbeddingChunk k _) =>
        k = length done /\
        exists ch,
          nth_error chunks k = Some ch /\
          log w' = log w ++ flat_map (okEvents s source) done
                         ++ [embedEvent float32 s ch]
    | Some (ErrStoringChunk _ k _) =>
        k = length done /\
        exists ch emb,
          nth_error chunks k = Some ch /\
          log w' = log w ++ flat_map (okEvents s source) done
                         ++ [embedEvent float32 s ch; EvInsert ch source emb]
    end.
Proof.
  intros Hchunks. unfold IndexDocument. rewrite Hchunks.
  destruct (indexLoop B s source 0 chunks w) as [w0 r0] eqn:Hrun.
  intros H. inversion H; subst.
  destruct (indexLoop_trace _ _ _ _ Hrun) as (done & Hfst & Hrows & Hlog).
  exists done. split; [exact Hfst|]. split; [exact Hrows|].
  destruct r as [[k e | k e] | ]; [| |exact Hlog].
  - destruct Hlog as (-> & ch & Hn & Hlog). split; [reflexivity|]. now exists ch.
  - destruct Hlog as (-> & ch & emb & Hn & Hlog). split; [reflexivity|].
    now exists ch, emb.
Qed.

Lemma GenerateEmbedding_nonempty (text : gostring) (w w' : World)
      (v : list float32) :
  GenerateEmbedding B s text w = (w', inr v) -> v <> [].
Proof.
  unfold GenerateEmbedding.
  destruct (postEmbeddings B w _ _ text) as [err | resp]; [discriminate|].
  destruct (negb _); [discriminate|].
  destruct (decodeEmbedding B _) as [err | e]; [discriminate|].
  destruct e as [|x e]; [discriminate|].
  intros H. inversion H. discriminate.
Qed.

Lemma indexLoop_vectors (source : gostring) (chunks : list gostring) :
  forall (i : nat) (w : World),
  exists added,
    rows (fst (indexLoop B s source i chunks w)) = rows w ++ added /\
    Forall (fun row => Embedding row <> [] /\ Source row = source) added.
Proof.
  induction chunks as [|ch rest IH]; intros i w.
  - exists []. split; [simpl; now rewrite app_nil_r | constructor].
  - cbn [indexLoop].
    destruct (GenerateEmbedding B s ch w) as [w1 [e | emb]] eqn:HE;
      destruct (GenerateEmbedding_log _ _ HE) as [_ Hr1].
    { exists []. cbn [fst]. split; [now rewrite app_nil_r | constructor]. }
    pose proof (GenerateEmbedding_nonempty _ _ HE) as Hne.
    destruct (InsertChunk B ch source emb w1) as [w2 [e | ]] eqn:HI;
      pose proof (InsertChunk_rows _ _ _ _ _ HI) as Hr2.
    { exists []. cbn [fst]. split; [|constructor].
      now rewrite Hr2, Hr1. }
    destruct (IH (S i) w2) as (added & Hrows & Hall).
    exists (mkRow ch source emb :: added). split.
    + now rewrite Hrows, Hr2, Hr1, <- app_assoc.
    + constructor; [now split | exact Hall].
Qed.

(** X5.  [IndexDocument] only adds rows, and every row it adds carries the
    source given and an embedding that is not empty. *)
Theorem IndexDocument_vectors (content source : gostring) (w : World) :
  exists added,
    rows (fst (IndexDocument B s content source w)) = rows w ++ added /\
    Forall (fun row => Embedding row <> [] /\ Source row = source) added.
Proof.
  unfold IndexDocument.
  destruct (ChunkText s content) as [chunks | | ].
  - destruct (indexLoop_vectors source chunks 0 w) as (added & Hrows & Hall).
    exists added. split; [|exact Hall].
    destruct (indexLoop B s source 0 chunks w). exact Hrows.
  - exists []. split; [simpl; now rewrite app_nil_r | constructor].
  - exists []. split; [simpl; now rewrite app_nil_r | constructor].
Qed.

(** X6.  With a chunk size that is not positive the whole content, blank or
    not and untrimmed, is the only fragment.  [IndexDocument] then makes
    one embedding call, whose request map holds that content as its
    prompt, and, when the embedding succeeds, one insert of the content
    with the embedding returned: one row when nothing fails, none
    otherwise, and an error names index 0. *)
Theorem IndexDocument_whole (content source : gostring) (w : World) :
  (chunkSize s <= 0)%Z ->
  ChunkText s content = Returns [content] /\
  exists w' r,
    IndexDocument B s content source w = (w', Returns r) /\
    match r with
    | None =>
        exists emb,
          snd (GenerateEmbedding B s content w) = inr emb /\
          rows w' = rows w ++ [mkRow content source emb] /\
          log w' = log w ++ [embedEvent float32 s content;
                             EvInsert content source emb]
    | Some (ErrEmbeddingChunk i e) =>
        i = 0 /\
        snd (GenerateEmbedding B s content w) = inl e /\
        rows w' = rows w /\
        log w' = log w ++ [embedEvent float32 s content]
    | Some (ErrStoringChunk _ i _) =>
        i = 0 /\
        exists emb,
          snd (GenerateEmbedding B s content w) = inr emb /\
          rows w' = rows w /\
          log w' = log w ++ [embedEvent float32 s content;
                             EvInsert content source emb]
    end.
Proof.
  intros Hsize.
  assert (Hchunks : ChunkText s content = Returns [content]).
  { unfold ChunkText, ChunkTextFuel.
    destruct (Z.leb_spec (chunkSize s) 0) as [_ | Hpos]; [reflexivity | lia]. }
  split; [exact Hchunks|].
  unfold IndexDocument. rewrite Hchunks. cbn [indexLoop].
  destruct (GenerateEmbedding B s content w) as [w1 [e | emb]] eqn:HE;
    destruct (GenerateEmbedding_log _ _ HE) as [Hl1 Hr1]; cbn [snd].
  { exists w1, (Some (ErrEmbeddingChunk 0 e)).
    split; [reflexivity|]. now repeat split. }
  destruct (InsertChunk B content source emb w1) as [w2 [e | ]] eqn:HI;
    pose proof (InsertChunk_log _ _ _ _ HI) as Hl2;
    pose proof (InsertChunk_rows _ _ _ _ _ HI) as Hr2.
  - exists w2, (Some (ErrStoringChunk _ 0 e)).
    split; [reflexivity|]. split; [reflexivity|]. exists emb.
    split; [reflexivity|]. split; [now rewrite Hr2, Hr1, app_nil_r|].
    now rewrite Hl2, Hl1, <- app_assoc.
  - exists w2, None. split; [reflexivity|]. exists emb.
    split; [reflexivity|]. split; [now rewrite Hr2, Hr1|].
    now rewrite Hl2, Hl1, <- app_assoc.
Qed.

(** X7.  [SearchSimilarContents] never changes the rows.  When embedding the
    question fails, that error is the result and the database is not
    queried.  Otherwise the database is queried once, with the vector that
    [GenerateEmbedding] returned for the question and the [topK] given,
    and the result is the contents of the rows the query yields, in their
    order, or the error of the query. *)
Theorem SearchSimilarContents_trace (question : gostring) (topK : Z) (w : World) :
  let w1 := logged w (embedEvent float32 s question) in
  let w' := fst (SearchSimilarContents B s question topK w) in
  let result := snd (SearchSimilarContents B s question topK w) in
  rows w' = rows w /\
  match snd (GenerateEmbedding B s question w) with
  | inl e =>
      result = inl (ErrEmbeddingQuery e) /\
      log w' = log w ++ [embedEvent float32 s question]
  | inr emb =>
      log w' = log w ++ [embedEvent float32 s question; EvSearch emb topK] /\
      match querySimilar B w1 emb topK with
      | RowsOk docs => result = inr (map (@Content float32) docs)
      | QueryFailed _ c => result = inl (ErrRepo _ (ErrVectorSearch c))
      | ScanFailed _ c => result = inl (ErrRepo _ (ErrScan c))
      end
  end.
Proof.
  intros w1. subst w1. unfold SearchSimilarContents, embedEvent.
  pose proof (GenerateEmbedding_world B s question w) as Hw.
  destruct (GenerateEmbedding B s question w) as [w0 [e | emb]]; cbn [fst] in Hw;
    subst w0; cbn [snd].
  { cbn [fst snd]. now repeat split. }
  unfold SearchSimilar.
  destruct (querySimilar B _ emb topK) as [c | c | docs];
    cbn [fst snd log logged rows]; rewrite <- app_assoc; now repeat split.
Qed.

End WithBackend.

End IndexMore.

(** ** More on the upload handler *)

Module UploadMore.
Import GoInt Service Handlers Traces GoStrFacts.

Lemma eqb_eq (a b : gostring) : eqb a b = true <-> a = b.
Proof.
  revert b; induction a as [|x a IH]; intros [|y b]; simpl; try easy.
  rewrite andb_true_iff, N.eqb_eq, IH. split.
  - now intros [-> ->].
  - intros H. now inversion H.
Qed.

Lemma toLowerRune_dot (r : rune) : toLowerRune r = 46%N <-> r = 46%N.
Proof.
  unfold toLowerRune.
  destruct (N.leb_spec 65 r); destruct (N.leb_spec r 90); simpl; lia.
Qed.

Lemma toLowerRune_t (r : rune) :
  toLowerRune r = 116%N <-> r = 116%N \/ r = 84%N.
Proof.
  unfold toLowerRune.
  destruct (N.leb_spec 65 r); destruct (N.leb_spec r 90); simpl; lia.
Qed.

Lemma toLowerRune_x (r : rune) :
  toLowerRune r = 120%N <-> r = 120%N \/ r = 88%N.
Proof.
  unfold toLowerRune.
  destruct (N.leb_spec 65 r); destruct (N.leb_spec r 90); simpl; lia.
Qed.

Lemma last_four {A} (l : list A) :
  4 <= length l ->
  exists pre a b c d, l = pre ++ [a; b; c; d] /\ length pre = length l - 4.
Proof.
  intros H. exists (firstn (length l - 4) l).
  pose proof (firstn_skipn (length l - 4) l) as E.
  pose proof (length_skipn (length l - 4) l) as L.
  destruct (skipn (length l - 4) l) as [|a [|b [|c [|d [|e t]]]]];
    simpl in L; try lia.
  exists a, b, c, d. split; [now symmetry|]. rewrite length_firstn. lia.
Qed.

(** X8.  The extension test of the upload handler: a name passes exactly when
    it ends in [.txt] with each letter in either case.  The dot is needed
    and a name that is only the extension passes. *)
Theorem txt_suffix_accepts (name : gostring) :
  HasSuffix (ToLower name) (lit ".txt") = true <-> endsInTxt name.
Proof.
  unfold HasSuffix, ToLower, endsInTxt. rewrite andb_true_iff, eqb_eq, Nat.leb_le.
  rewrite length_map. change (length (lit ".txt")) with 4. split.
  - intros [Heq Hlen].
    destruct (last_four name Hlen) as (pre & a & b & c & d & -> & Hpre).
    rewrite length_app in Heq. simpl length in Heq.
    replace (length pre + 4 - 4) with (length (map toLowerRune pre)) in Heq
      by (rewrite length_map; lia).
    rewrite map_app, skipn_app, skipn_all, Nat.sub_diag in Heq.
    simpl in Heq. change (lit ".txt") with [46%N; 116%N; 120%N; 116%N] in Heq.
    injection Heq as Ha Hb Hc Hd.
    apply (proj1 (toLowerRune_dot a)) in Ha. subst a.
    exists pre, b, c, d. split; [reflexivity|].
    now rewrite <- !toLowerRune_t, <- toLowerRune_x.
  - intros (pre & b & c & d & -> & Hb & Hc & Hd).
    rewrite length_app. simpl length. split; [|lia].
    replace (length pre + 4 - 4) with (length (map toLowerRune pre))
      by (rewrite length_map; lia).
    rewrite map_app, skipn_app, skipn_all, Nat.sub_diag. simpl.
    apply (proj2 (toLowerRune_t b)) in Hb. apply (proj2 (toLowerRune_t d)) in Hd.
    apply (proj2 (toLowerRune_x c)) in Hc.
    now rewrite Hb, Hc, Hd.
Qed.

Section Upload.

Variables float32 RawJSON : Type.
Variable showErr : IndexError RawJSON -> gostring.
Variable indexFn : IndexFn float32 RawJSON.

(** Every request either is answered 405 or 400 without [indexFn] being
    called, or is answered by one call of [indexFn] on what the form
    submits. *)
Lemma UploadHandler_split (r : UploadRequest) (w : World float32) :
  (exists resp,
      UploadHandler showErr indexFn r w = (w, Returns resp) /\
      (status resp = StatusMethodNotAllowed \/ status resp = StatusBadRequest))
  \/
  (exists form,
      upForm r = inr form /\
      TrimSpace (fst (submitted form)) <> [] /\
      ((snd (submitted form) = user_text /\ fst (submitted form) = formText form)
       \/
       (formFile form = Some (mkFile (snd (submitted form)) (inr (fst (submitted form))))
        /\ HasSuffix (ToLower (snd (submitted form))) (lit ".txt") = true)) /\
      UploadHandler showErr indexFn r w
      = indexResponse showErr
                      (indexFn (fst (submitted form)) (snd (submitted form)) w)).
Proof.
  unfold UploadHandler.
  destruct (negb (eqb (upMethod r) MethodPost)).
  { left. eexists. split; [reflexivity | now left]. }
  destruct (upForm r) as [err | form] eqn:Hform.
  { left. eexists. split; [reflexivity | now right]. }
  unfold submitted, uploadTail.
  destruct form as [text [[name [err | b]] | ]];
    cbn [formText formFile Filename ReadAll].
  - destruct (negb _); left; eexists; (split; [reflexivity | now right]).
  - destruct (HasSuffix (ToLower name) (lit ".txt")) eqn:Hext; cbn [negb].
    2:{ left. eexists. split; [reflexivity | now right]. }
    destruct (isEmpty b) eqn:Hb; cbn [fst snd];
      match goal with
      | |- context [isEmpty (TrimSpace ?c)] =>
          destruct (isEmpty (TrimSpace c)) eqn:Ht
      end.
    + left. eexists. split; [reflexivity | now right].
    + right. eexists. split; [reflexivity|]. cbn [formText formFile].
      rewrite Hb. cbn [fst snd].
      split; [now apply isEmpty_false|]. split; [now left | reflexivity].
    + left. eexists. split; [reflexivity | now right].
    + right. eexists. split; [reflexivity|]. cbn [formText formFile].
      rewrite Hb. cbn [fst snd].
      split; [now apply isEmpty_false|]. split; [right; now split | reflexivity].
  - cbn [isEmpty fst snd].
    destruct (isEmpty (TrimSpace text)) eqn:Ht.
    + left. eexists. split; [reflexivity | now right].
    + right. eexists. split; [reflexivity|]. cbn [formText formFile].
      split; [now apply isEmpty_false|]. split; [now left | reflexivity].
Qed.

(** X9.  [indexFn] is called at most once, never with a blank content, and
    only with the text under source [user_text] or with the content of a
    [.txt] file under its name; a request that is refused (405, 400)
    leaves the world as it was. *)
Theorem UploadHandler_cases (r : UploadRequest) (w : World float32) :
  (exists resp,
      UploadHandler showErr indexFn r w = (w, Returns resp) /\
      (status resp = StatusMethodNotAllowed \/ status resp = StatusBadRequest))
  \/
  (exists form,
      upForm r = inr form /\
      TrimSpace (fst (submitted form)) <> [] /\
      ((snd (submitted form) = user_text /\ fst (submitted form) = formText form)
       \/
       (formFile form = Some (mkFile (snd (submitted form)) (inr (fst (submitted form))))
        /\ HasSuffix (ToLower (snd (submitted form))) (lit ".txt") = true)) /\
      UploadHandler showErr indexFn r w
      = indexResponse showErr
                      (indexFn (fst (submitted form)) (snd (submitted form)) w)).
Proof. exact (UploadHandler_split r w). Qed.

Lemma indexResponse_fst (x : World float32 * Outcome (option (IndexError RawJSON))) :
  fst (indexResponse showErr x) = fst x.
Proof. now destruct x as [w [[e | ] | | ]]. Qed.

Lemma indexResponse_ok (x : World float32 * Outcome (option (IndexError RawJSON)))
      (w' : World float32) (resp : Response) :
  indexResponse showErr x = (w', Returns resp) ->
  status resp = StatusOK ->
  x = (w', Returns None).
Proof.
  destruct x as [w [[e | ] | | ]]; simpl; intros H; inversion H; subst; simpl;
    [discriminate | reflexivity].
Qed.

Lemma indexResponse_err (x : World float32 * Outcome (option (IndexError RawJSON)))
      (w' : World float32) (resp : Response) :
  indexResponse showErr x = (w', Returns resp) ->
  status resp = StatusInternalServerError ->
  exists err,
    x = (w', Returns (Some err)) /\
    body resp = lit "error indexando documento: " ++ showErr err ++ [LF].
Proof.
  destruct x as [w [[e | ] | | ]]; cbn [indexResponse]; intros H;
    try discriminate; injection H as <- <-; unfold httpError; cbn [status body];
    intros Hs; [|discriminate].
  exists e. split; reflexivity.
Qed.

End Upload.

Section Endpoint.

Variables float32 Body RawJSON : Type.
Variable B : Backend float32 Body RawJSON.
Variable s : RAGService.

(** X10.  A 200 answer of the upload endpoint means that every fragment of the
    submitted content is stored, in order, under the submitted source. *)
Theorem upload_ok_stores_all (r : UploadRequest) (w w' : World float32)
        (resp : Response) :
  UploadEndpoint B s r w = (w', Returns resp) ->
  status resp = StatusOK ->
  exists form chunks added,
    upForm r = inr form /\
    TrimSpace (fst (submitted form)) <> [] /\
    ChunkText s (fst (submitted form)) = Returns chunks /\
    rows w' = rows w ++ added /\
    map (@Content float32) added = chunks /\
    Forall (fun row => Source row = snd (submitted form)) added.
Proof.
  unfold UploadEndpoint. intros Hrun Hst.
  destruct (UploadHandler_split (indexErrorText B) (IndexDocument B s) r w)
    as [(resp0 & E & Hs) | (form & Hform & Hnb & _ & E)]; rewrite E in Hrun.
  { inversion Hrun; subst. rewrite Hst in Hs. destruct Hs; discriminate. }
  apply indexResponse_ok in Hrun; [|exact Hst].
  unfold IndexDocument in Hrun.
  destruct (ChunkText s (fst (submitted form))) as [chunks | | ] eqn:Hchunks;
    try discriminate.
  destruct (indexLoop B s (snd (submitted form)) 0 chunks w) as [w0 r0] eqn:Hloop.
  inversion Hrun; subst.
  destruct (IndexMore.indexLoop_trace _ _ _ _ _ _ Hloop)
    as (done & Hfst & Hrows & Hlen & _).
  rewrite Hlen, firstn_all in Hfst.
  exists form, chunks, (map (stored (snd (submitted form))) done).
  repeat split; try assumption.
  - rewrite map_map. exact Hfst.
  - apply Forall_forall. intros row Hin.
    apply in_map_iff in Hin as (p & <- & _). reflexivity.
Qed.

(** X11.  A 500 answer of the upload endpoint means that a fragment failed: the
    fragments before it stay stored, and the body of the answer is the
    error of [IndexDocument], which names the index of that fragment. *)
Theorem upload_error_keeps_prefix (r : UploadRequest) (w w' : World float32)
        (resp : Response) :
  UploadEndpoint B s r w = (w', Returns resp) ->
  status resp = StatusInternalServerError ->
  exists form chunks err (done : list (gostring * list float32)),
    upForm r = inr form /\
    ChunkText s (fst (submitted form)) = Returns chunks /\
    length done < length chunks /\
    errorIndex err = length done /\
    map fst done = firstn (length done) chunks /\
    rows w' = rows w ++ map (stored (snd (submitted form))) done /\
    body resp = lit "error indexando documento: " ++ indexErrorText B err ++ [LF].
Proof.
  unfold UploadEndpoint. intros Hrun Hst.
  destruct (UploadHandler_split (indexErrorText B) (IndexDocument B s) r w)
    as [(resp0 & E & Hs) | (form & Hform & Hnb & _ & E)]; rewrite E in Hrun.
  { inversion Hrun; subst. rewrite Hst in Hs. destruct Hs; discriminate. }
  apply indexResponse_err in Hrun as (err & Hrun & Hbody); [|exact Hst].
  unfold IndexDocument in Hrun.
  destruct (ChunkText s (fst (submitted form))) as [chunks | | ] eqn:Hchunks;
    try discriminate.
  destruct (indexLoop B s (snd (submitted form)) 0 chunks w) as [w0 r0] eqn:Hloop.
  inversion Hrun; subst.
  destruct (IndexMore.indexLoop_trace _ _ _ _ _ _ Hloop)
    as (done & Hfst & Hrows & Hlog).
  exists form, chunks, err, done.
  assert (Hk : errorIndex err = length done /\ length done < length chunks).
  { destruct err as [k e | k e]; cbn [errorIndex].
    - destruct Hlog as (-> & ch & Hn & _). split; [reflexivity|].
      apply nth_error_Some. congruence.
    - destruct Hlog as (-> & ch & emb & Hn & _). split; [reflexivity|].
      apply nth_error_Some. congruence. }
  destruct Hk as [Hk1 Hk2]. repeat split; assumption.
Qed.

(** X12.  Whatever the outcome, the upload endpoint only adds rows, and every
    row it adds has a content that is not empty. *)
Theorem upload_rows_nonempty (form : Form) (w : World float32) :
  inRange (chunkSize s) ->
  inRange (chunkOverlap s) ->
  (len (fst (submitted form)) <= maxInt)%Z ->
  exists added,
    rows (fst (UploadEndpoint B s (mkUpload MethodPost (inr form)) w))
    = rows w ++ added /\
    Forall (fun row => Content row <> []) added.
Proof.
  intros Hsz Hov Hlen. unfold UploadEndpoint.
  destruct (UploadHandler_split (indexErrorText B) (IndexDocument B s)
                                (mkUpload MethodPost (inr form)) w)
    as [(resp0 & E & _) | (form' & Hform & Hnb & _ & E)]; rewrite E.
  { exists []. split; [now rewrite app_nil_r | constructor]. }
  cbn [upForm] in Hform. inversion Hform; subst form'.
  rewrite indexResponse_fst.
  set (content := fst (submitted form)) in *.
  assert (Hchunks : exists chunks, ChunkText s content = Returns chunks /\
                                   Forall (fun ch => ch <> []) chunks).
  { destruct (Z.leb_spec (chunkSize s) 0) as [Hneg | Hpos].
    - exists [content]. unfold ChunkText, ChunkTextFuel.
      destruct (Z.leb_spec (chunkSize s) 0); [|lia].
      split; [reflexivity|]. repeat constructor.
      intros E0. apply Hnb. now rewrite E0.
    - apply ChunkMore.ChunkText_nonempty; [|exact Hlen].
      unfold inRange in Hsz. lia. }
  destruct Hchunks as (chunks & Hchunks & Hne).
  unfold IndexDocument. rewrite Hchunks.
  destruct (indexLoop B s (snd (submitted form)) 0 chunks w) as [w0 r0] eqn:Hloop.
  destruct (IndexMore.indexLoop_trace _ _ _ _ _ _ Hloop) as (done & Hfst & Hrows & _).
  exists (map (stored (snd (submitted form))) done). split; [exact Hrows|].
  apply Forall_forall. intros row Hin.
  apply in_map_iff in Hin as (p & <- & Hp). cbn [stored Content].
  assert (Hin : In (fst p) chunks).
  { assert (H : In (fst p) (map fst done)) by now apply in_map.
    rewrite Hfst in H. rewrite <- (firstn_skipn (length done) chunks).
    apply in_or_app. now left. }
  exact (proj1 (Forall_forall _ _) Hne _ Hin).
Qed.

End Endpoint.

End UploadMore.

(** ** More on the query handler *)

Module QueryMore.
Import GoInt Service Handlers Traces GoStrFacts.

Lemma hasLF_app (a b : gostring) : hasLF (a ++ b) = hasLF a || hasLF b.
Proof. apply existsb_app. Qed.

(** Replacing every line feed by something without one leaves none. *)
Lemma ReplaceAll1_no_LF (s new : gostring) :
  hasLF new = false -> hasLF (ReplaceAll1 s LF new) = false.
Proof.
  intros Hnew. induction s as [|c s IH]; [reflexivity|].
  unfold ReplaceAll1 in *. cbn [flat_map]. rewrite hasLF_app, IH, orb_false_r.
  destruct (N.eqb_spec c LF) as [-> | Hne]; [exact Hnew|].
  unfold hasLF. cbn [existsb]. rewrite orb_false_r. apply N.eqb_neq. congruence.
Qed.

Lemma escapeNewlines_nonempty (s : gostring) :
  s <> [] -> escapeNewlines s <> [].
Proof.
  destruct s as [|c s]; [easy|]. intros _.
  unfold escapeNewlines, ReplaceAll1. cbn [flat_map].
  destruct (c =? LF)%N; discriminate.
Qed.

Lemma terminalEvents_skip (response : gostring) (rest : list Increment) :
  terminalEvents (Chunk response false :: rest) = terminalEvents rest.
Proof. reflexivity. Qed.

(** The events are the data events followed by the terminal events. *)
Lemma streamLoop_split (incs : list Increment) :
  streamLoop incs = map Data (tokens (streamLoop incs)) ++ terminalEvents incs /\
  Forall (fun t => t <> []) (tokens (streamLoop incs)) /\
  length (tokens (streamLoop incs)) <= length incs.
Proof.
  induction incs as [|[response done | cause] rest (IH1 & IH2 & IH3)].
  - split; [reflexivity|]. split; [constructor | simpl; lia].
  - cbn [streamLoop]. destruct done.
    + destruct (isEmpty response) eqn:He; unfold doneEvent;
        cbn [app tokens map length].
      * split; [reflexivity|]. split; [constructor | lia].
      * apply isEmpty_false in He.
        split; [reflexivity|]. split; [|lia].
        repeat constructor. now apply escapeNewlines_nonempty.
    + rewrite terminalEvents_skip.
      destruct (isEmpty response) eqn:He; cbn [app tokens map length].
      * split; [exact IH1|]. split; [exact IH2 | lia].
      * apply isEmpty_false in He.
        split; [now rewrite <- IH1|]. split; [|lia].
        constructor; [now apply escapeNewlines_nonempty | exact IH2].
  - split; [reflexivity|]. split; [constructor | simpl; lia].
Qed.

(** X13.  The events of a stream are exactly these: one data event for each
    non-empty partial text among the increments decoded, in order, with
    the text escaped as its payload, none of them empty; then at most one
    terminal event, [done] or [error], after which nothing follows.  There
    are no more data events than increments. *)
Theorem streamLoop_shape (incs : list Increment) :
  let texts := filter (fun t => negb (isEmpty t)) (map fst (decoded incs)) in
  streamLoop incs = map Data (map escapeNewlines texts) ++ terminalEvents incs /\
  Forall (fun t => escapeNewlines t <> []) texts /\
  length texts <= length incs.
Proof.
  intros texts.
  destruct (streamLoop_split incs) as (H1 & H2 & H3).
  rewrite (QueryFacts.streamLoop_tokens incs) in H1, H2, H3. fold texts in H1, H2, H3.
  split; [exact H1|]. split.
  - apply Forall_forall. intros t Ht.
    apply (proj1 (Forall_forall _ _) H2). now apply in_map.
  - now rewrite length_map in H3.
Qed.

(** X14.  No event carries a line feed in its payload.  That is all the
    handler escapes: a non-empty partial text without a line feed is
    forwarded exactly as it is, a carriage return in it included. *)
Theorem streamLoop_payloads (incs : list Increment) :
  Forall (fun e => hasLF (payload e) = false) (streamLoop incs) /\
  (forall response done rest,
      response <> [] -> hasLF response = false ->
      exists more,
        streamLoop (Chunk response done :: rest) = Data response :: more).
Proof.
  split.
  - induction incs as [|[response done | cause] rest IH]; cbn [streamLoop].
    + constructor.
    + apply Forall_app. split.
      * destruct (isEmpty response); repeat constructor.
        now apply ReplaceAll1_no_LF.
      * destruct done; [now repeat constructor | exact IH].
    + repeat constructor. now apply ReplaceAll1_no_LF.
  - intros response done rest Hne Hlf. cbn [streamLoop].
    apply isEmpty_false in Hne. rewrite Hne.
    unfold escapeNewlines. rewrite (ReplaceAll1_absent response LF _ Hlf).
    eexists. reflexivity.
Qed.

Section Handler.

Variables float32 Body RawJSON : Type.
Variable B : Backend float32 Body RawJSON.
Variable s : RAGService.


End Handler.

End QueryMore.

(** ** PostgresRepository.Init *)

Module RepoFacts.
Import Repo.

Section Exec.

Variable exec : list gostring -> gostring -> option gostring.

(** The statements sent are a prefix of the list; all before the last
    one sent succeeded, and the result is the failure of the last one
    sent, or [nil] when the list is exhausted. *)
Lemma execAll_prefix (queries : list gostring) :
  forall sent : list gostring,
  exists n,
    n <= length queries /\
    fst (execAll exec sent queries) = sent ++ firstn n queries /\
    match snd (execAll exec sent queries) with
    | None =>
        n = length queries /\
        forall k q, nth_error queries k = Some q ->
                    exec (sent ++ firstn k queries) q = None
    | Some err =>
        exists m q cause,
          n = S m /\
          nth_error queries m = Some q /\
          exec (sent ++ firstn m queries) q = Some cause /\
          err = lit "error executing init query: " ++ cause /\
          forall k q', k < m -> nth_error queries k = Some q' ->
                       exec (sent ++ firstn k queries) q' = None
    end.
Proof.
  induction queries as [|q rest IH]; intros sent.
  - exists 0. simpl. rewrite app_nil_r.
    split; [lia|]. split; [reflexivity|]. split; [reflexivity|].
    intros [|k] q' H; discriminate.
  - cbn [execAll]. destruct (exec sent q) as [cause | ] eqn:Hq.
    + exists 1. cbn [fst snd firstn length]. split; [lia|]. split; [reflexivity|].
      exists 0, q, cause. simpl. rewrite app_nil_r.
      split; [reflexivity|]. split; [reflexivity|]. split; [exact Hq|].
      split; [reflexivity|]. intros k q' Hk. lia.
    + destruct (IH (sent ++ [q])) as (n & Hn & Hsent & Hres).
      exists (S n). cbn [length firstn]. split; [lia|].
      split; [now rewrite Hsent, <- app_assoc|].
      destruct (snd (execAll exec (sent ++ [q]) rest)) as [err | ].
      * destruct Hres as (m & q0 & cause & -> & Hm & Hex & -> & Hbefore).
        exists (S m), q0, cause. cbn [nth_error firstn].
        split; [reflexivity|]. split; [exact Hm|].
        split; [now rewrite <- app_assoc in Hex|]. split; [reflexivity|].
        intros [|k] q' Hk Hq'.
        -- simpl in Hq'. inversion Hq'; subst. simpl. now rewrite app_nil_r.
        -- simpl in Hq'. specialize (Hbefore k q' ltac:(lia) Hq').
           simpl. now rewrite <- app_assoc in Hbefore.
      * destruct Hres as (-> & Hall). split; [reflexivity|].
        intros [|k] q' Hq'.
        -- simpl in Hq'. inversion Hq'; subst. simpl. now rewrite app_nil_r.
        -- simpl in Hq'. specialize (Hall k q' Hq').
           simpl. now rewrite <- app_assoc in Hall.
Qed.

(** X16.  [Init] sends the extension, table and index statements in this
    order and stops at the first one that fails: the statements sent are
    a prefix of the three, the result is [nil] exactly when all three
    were sent and succeeded, and otherwise it is the failure of the last
    statement sent. *)
Theorem Init_in_order :
  exists n,
    n <= 3 /\
    fst (Init exec) = firstn n initQueries /\
    match snd (Init exec) with
    | None =>
        n = 3 /\
        exec [] createExtension = None /\
        exec [createExtension] createTable = None /\
        exec [createExtension; createTable] createIndex = None
    | Some err =>
        exists m q cause,
          n = S m /\
          nth_error initQueries m = Some q /\
          exec (firstn m initQueries) q = Some cause /\
          err = lit "error executing init query: " ++ cause /\
          forall k q', k < m -> nth_error initQueries k = Some q' ->
                       exec (firstn k initQueries) q' = None
    end.
Proof.
  unfold Init. destruct (execAll_prefix initQueries []) as (n & Hn & Hsent & Hres).
  exists n. split; [exact Hn|]. split; [exact Hsent|].
  destruct (snd (execAll exec [] initQueries)) as [err | ].
  - exact Hres.
  - destruct Hres as (-> & Hall). split; [reflexivity|].
    split; [exact (Hall 0 _ eq_refl)|].
    split; [exact (Hall 1 _ eq_refl) | exact (Hall 2 _ eq_refl)].
Qed.

End Exec.

End RepoFacts.

(** ** The further statements at sample inputs *)

Module MoreChecks.
Import GoInt Service Handlers Samples Traces.

(** Size 3 and no overlap: blocks of three words. *)
Example ChunkText_blocks :
  ChunkText svcNoOverlap skyText
  = Returns [lit "the sky is"; lit "blue the grass"; lit "is green"].
Proof. reflexivity. Qed.

Lemma ChunkText_covers_witness :
  exists chunks k ch,
    ChunkText svc skyText = Returns chunks /\
    nth_error chunks k = Some ch /\
    nth_error (Fields ch) (5 - k * 2) = Some (lit "grass").
Proof.
  destruct (@ChunkMore.ChunkText_covers svc skyText) as (chunks & Hrun & Hall).
  - unfold maxInt. simpl. lia.
  - simpl. lia.
  - unfold maxInt, len. simpl. lia.
  - destruct (Hall 5 (lit "grass") eq_refl) as (k & ch & Hk & _ & Hw).
    exists chunks, k, ch. split; [exact Hrun|]. split; [exact Hk | exact Hw].
Defined.

Lemma ChunkText_fragments_witness :
  exists chunks,
    ChunkText svcCapped skyText = Returns chunks /\
    length chunks <= 8 /\
    Forall (fun ch => ch <> [] /\ 0 < length (Fields ch) <= 2) chunks.
Proof.
  apply (@ChunkMore.ChunkText_fragments svcCapped skyText).
  - simpl. lia.
  - unfold inRange, minInt, maxInt. simpl. lia.
  - unfold inRange, minInt, maxInt. simpl. lia.
  - unfold maxInt, len. simpl. lia.
Defined.

Lemma ChunkText_rejoin_witness :
  exists chunks,
    ChunkText svcNoOverlap skyText = Returns chunks /\
    concat (map Fields chunks) = Fields skyText /\
    Join chunks [SP] = Join (Fields skyText) [SP].
Proof.
  apply (@ChunkMore.ChunkText_rejoin svcNoOverlap skyText).
  - simpl. lia.
  - unfold inRange, minInt, maxInt. simpl. lia.
  - unfold inRange, minInt, maxInt. simpl. lia.
  - unfold maxInt, len. simpl. lia.
  - reflexivity.
Defined.

Lemma IndexDocument_trace_witness :
  exists done : list (gostring * list Z),
    map fst done = firstn (length done) skyChunks /\
    rows (fst (IndexDocument (backend (Some 2) []) svc skyText doc1 emptyWorld))
    = map (stored doc1) done.
Proof.
  destruct (@IndexMore.IndexDocument_trace Z SBody gostring (backend (Some 2) []) svc
              skyText doc1 skyChunks emptyWorld
              (fst (IndexDocument (backend (Some 2) []) svc skyText doc1 emptyWorld))
              (Some (ErrEmbeddingChunk 1
                       (ErrCallingEmbeddings _ (lit "connection refused")))))
    as (done & Hfst & Hrows & _).
  - reflexivity.
  - reflexivity.
  - exists done. split; [exact Hfst | exact Hrows].
Defined.

Lemma IndexDocument_whole_witness :
  ChunkText svcWhole [SP; SP] = Returns [[SP; SP]] /\
  exists w' r,
    IndexDocument (backend None []) svcWhole [SP; SP] doc1 emptyWorld
    = (w', Returns r).
Proof.
  destruct (@IndexMore.IndexDocument_whole Z SBody gostring (backend None []) svcWhole
              [SP; SP] doc1 emptyWorld) as (Hchunks & w' & r & Hrun & _).
  - simpl. lia.
  - split; [exact Hchunks|]. exists w', r. exact Hrun.
Defined.

Lemma txt_suffix_accepts_witness :
  HasSuffix (ToLower (lit "Notes.TXT")) (lit ".txt") = true.
Proof.
  apply (proj2 (UploadMore.txt_suffix_accepts (lit "Notes.TXT"))).
  exists (lit "Notes"), 84%N, 88%N, 84%N.
  split; [reflexivity|]. split; [now right|]. split; now right.
Defined.

(** The extension alone passes, the letters without the dot do not. *)
Example txt_suffix_edges :
  HasSuffix (ToLower (lit ".txt")) (lit ".txt") = true /\
  HasSuffix (ToLower (lit "notestxt")) (lit ".txt") = false.
Proof. split; reflexivity. Qed.

Lemma upload_ok_stores_all_witness :
  exists chunks added,
    ChunkText svc (lit "the sky is blue") = Returns chunks /\
    rows (fst (UploadEndpoint (backend None []) svc textUpload emptyWorld)) = added /\
    map (@Content Z) added = chunks.
Proof.
  destruct (@UploadMore.upload_ok_stores_all Z SBody gostring (backend None []) svc
              textUpload emptyWorld
              (fst (UploadEndpoint (backend None []) svc textUpload emptyWorld))
              (mkResponse StatusOK okJSON))
    as (form & chunks & added & Hform & _ & Hchunks & Hrows & Hc & _).
  - reflexivity.
  - reflexivity.
  - inversion Hform; subst form.
    exists chunks, added. split; [exact Hchunks|]. split; [exact Hrows | exact Hc].
Defined.

(** The upload whose second embedding fails: status 500, one row. *)
Lemma upload_error_keeps_prefix_witness :
  exists (err : IndexError gostring) (done : list (gostring * list Z)),
    errorIndex err = length done /\
    rows (fst (UploadEndpoint (backend (Some 2) []) svc skyUpload emptyWorld))
    = map (stored user_text) done.
Proof.
  destruct (@UploadMore.upload_error_keeps_prefix Z SBody gostring
              (backend (Some 2) []) svc skyUpload emptyWorld
              (fst (UploadEndpoint (backend (Some 2) []) svc skyUpload emptyWorld))
              (httpError (lit "error indexando documento: embedding chunk 1: error calling ollama embeddings: connection refused")
                         StatusInternalServerError))
    as (form & chunks & err & done & Hform & _ & _ & Hidx & _ & Hrows & _).
  - reflexivity.
  - reflexivity.
  - inversion Hform; subst form. exists err, done.
    split; [exact Hidx | exact Hrows].
Defined.

Lemma upload_rows_nonempty_witness :
  exists added,
    rows (fst (UploadEndpoint (backend None []) svc fileAndTextUpload emptyWorld))
    = added /\
    Forall (fun row => Content row <> []) added.
Proof.
  apply (@UploadMore.upload_rows_nonempty Z SBody gostring (backend None []) svc
           (mkForm (lit "hello")
                   (Some (mkFile (lit "notes.txt") (inr (lit "from the file")))))
           emptyWorld).
  - unfold inRange, minInt, maxInt. simpl. lia.
  - unfold inRange, minInt, maxInt. simpl. lia.
  - unfold maxInt, len. simpl. lia.
Defined.

(** A carriage return and no line feed: forwarded as it is. *)
Lemma streamLoop_payloads_witness :
  exists more,
    streamLoop [Chunk [97%N; 13%N; 98%N] false] = Data [97%N; 13%N; 98%N] :: more.
Proof.
  apply (proj2 (QueryMore.streamLoop_payloads [])); [discriminate | reflexivity].
Defined.

(** Two answers of the embedding service with status 404 and different
    plain-text bodies give the same error, and its text holds neither
    body. *)
Lemma embedding_body_lost_counterexample :
  snd (GenerateEmbedding (textBackend 404 (lit "404 page not found")) svc
                         (lit "hello") emptyWorld)
  = inl (ErrEmbeddingsStatus 404 None) /\
  snd (GenerateEmbedding (textBackend 404 (lit "model not available")) svc
                         (lit "hello") emptyWorld)
  = inl (ErrEmbeddingsStatus 404 None) /\
  embedErrorText (textBackend 404 (lit "404 page not found"))
                 (ErrEmbeddingsStatus 404 None)
  = lit "ollama embeddings status 404: map[]" /\
  lit "404 page not found" <> lit "model not available".
Proof.
  split; [reflexivity|]. split; [reflexivity|]. split; [reflexivity|].
  discriminate.
Qed.

End MoreChecks.
